(** * Gallery viewer navigation and zoomable map configuration

    A shallow embedding of the navigation logic of the [GalleryViewer]
    component and of the [transformConfig] tables of the zoomable map
    components, together with the icon layout that [ZoomableMapContainer]
    delegates to its [MapIcon] child.

    Conventions.
    - Index arithmetic is on [Z]: the indices, lengths and deltas the viewer
      handles are JavaScript numbers holding integers, and JavaScript's [%]
      is the truncating remainder, [Z.rem].  Sums on [Z] are exact; those of
      the source are exact as long as operands and results are safe integers
      (at most 2^53 - 1 in absolute value), and a statement that depends on
      the value of a sum of arbitrary deltas assumes that ([exactSums]).
    - Pointer coordinates, wheel deltas, percentages and scale factors are
      rationals ([Q]); they are only compared, added and multiplied, and
      exactly so, where the source rounds each result to the nearest double.
    - A callback prop is a function the component may invoke.  The embedding
      records whether each optional callback is supplied and returns the
      list of invocations a handler performs, in order. *)

From Stdlib Require Import ZArith QArith Qabs List String Bool Lia.
From Stdlib Require Import Ascii DecimalString DecimalNat Lqa.
From Stdlib Require DecimalFacts Finite.
From Stdlib Require Import Permutation Sorted.
Import ListNotations.

Local Open Scope Z_scope.

(** ** GalleryViewer *)

Module GalleryViewer.

Record GalleryImage := { src : string; label : string }.

(** [GalleryViewerProps].  [onClose] is always supplied; [onPrevious],
    [onNext] and [onIndexChange] are optional, and the booleans say
    whether the caller supplied them. *)
Record GalleryViewerProps := {
  isOpen : bool;
  images : list GalleryImage;
  currentIndex : Z;
  title : string;
  onPrevious : bool;
  onNext : bool;
  onIndexChange : bool
}.

(** What a handler does to the outside world. *)
Inductive Call :=
| CallOnClose
| CallOnPrevious
| CallOnNext
| CallOnIndexChange (index : Z)
| CallPreventDefault.

(** [images.length] *)
Definition images_length (p : GalleryViewerProps) : Z :=
  Z.of_nat (List.length (images p)).

(** [(currentIndex + delta + images.length) % images.length], the two sums
    taken exactly. *)
Definition nextIndex (len cur delta : Z) : Z :=
  Z.rem (cur + delta + len) len.

Definition changeIndexBy (p : GalleryViewerProps) (delta : Z) : list Call :=
  if images_length p =? 0 then []
  else
    let nextIndex := nextIndex (images_length p) (currentIndex p) delta in
    if onIndexChange p then [CallOnIndexChange nextIndex]
    else if (delta <? 0) && onPrevious p then [CallOnPrevious]
    else if (0 <? delta) && onNext p then [CallOnNext]
    else [].

(** [a > b] on rationals. *)
Definition Qgtb (a b : Q) : bool := negb (Qle_bool a b).

(** [handleWheel], as a function of [e.deltaY]. *)
Definition handleWheel (p : GalleryViewerProps) (deltaY : Q) : list Call :=
  if negb (isOpen p) || (images_length p <=? 1) then []
  else CallPreventDefault :: changeIndexBy p (if Qgtb deltaY 0 then 1 else -1).

(** The swipe state is the ref [touchStartX : number | null]; each touch
    handler returns the new content of the ref and the calls made. *)
Definition onTouchStart (clientX : Q) : option Q := Some clientX.

Definition onTouchMove (touchStartX : option Q) (p : GalleryViewerProps)
    (clientX : Q) : option Q * list Call :=
  match touchStartX with
  | None => (None, [])
  | Some start =>
      let diff := (start - clientX)%Q in
      if Qgtb (Qabs diff) 50
      then (None, changeIndexBy p (if Qgtb diff 0 then 1 else -1))
      else (Some start, [])
  end.

Definition onTouchEnd : option Q := None.

(** [keyHandler], as a function of [e.key]. *)
Definition keyHandler (p : GalleryViewerProps) (key : string) : list Call :=
  if negb (isOpen p) then []
  else if String.eqb key "ArrowLeft" then CallPreventDefault :: changeIndexBy p (-1)
  else if String.eqb key "ArrowRight" then CallPreventDefault :: changeIndexBy p 1
  else if String.eqb key "Escape" then [CallPreventDefault; CallOnClose]
  else [].

(** The [onClick] of the indicator dot created for [idx]. *)
Definition IndicatorDot_onClick (p : GalleryViewerProps) (idx : Z) : list Call :=
  if onIndexChange p then [CallOnIndexChange idx]
  else if negb (idx =? currentIndex p)
       then changeIndexBy p (if currentIndex p <? idx then 1 else -1)
       else [].

(** The part of the rendered tree the navigation depends on. *)
Record View := {
  shown : option GalleryImage;        (* images[currentIndex] *)
  counter : option (Z * Z);           (* currentIndex + 1 / images.length *)
  indicatorDots : list (Z * bool)     (* idx, active *)
}.

(** [images[i]], undefined outside the array. *)
Definition image_at (l : list GalleryImage) (i : Z) : option GalleryImage :=
  if i <? 0 then None else nth_error l (Z.to_nat i).

(** [images.map((_, idx) => ...)]: one dot per index, in order. *)
Definition dots (p : GalleryViewerProps) : list (Z * bool) :=
  map (fun n => let idx := Z.of_nat n in (idx, idx =? currentIndex p))
      (seq 0 (List.length (images p))).

(** The component's result: [None] is the [return null]. *)
Definition render (p : GalleryViewerProps) : option View :=
  if negb (isOpen p) || (images_length p =? 0) then None
  else Some {|
    shown := image_at (images p) (currentIndex p);
    counter := if 1 <? images_length p
               then Some (currentIndex p + 1, images_length p) else None;
    indicatorDots := if 1 <? images_length p then dots p else []
  |}.

(** The indices that have an indicator dot on screen. *)
Definition dotIndices (p : GalleryViewerProps) : list Z :=
  match render p with
  | None => []
  | Some v => map fst (indicatorDots v)
  end.

(** A click on the dot of [idx] reaches its handler only if that dot is
    on screen. *)
Definition clickDot (p : GalleryViewerProps) (idx : Z) : list Call :=
  if existsb (Z.eqb idx) (dotIndices p) then IndicatorDot_onClick p idx else [].

(** A navigation callback is one of [onIndexChange], [onPrevious],
    [onNext]. *)
Definition isNavigation (c : Call) : bool :=
  match c with
  | CallOnIndexChange _ | CallOnPrevious | CallOnNext => true
  | CallOnClose | CallPreventDefault => false
  end.

End GalleryViewer.

(** ** The owner of the viewer's state, and whole gestures *)

Module Owner.
Import GalleryViewer.

Definition withIndex (p : GalleryViewerProps) (i : Z) : GalleryViewerProps :=
  {| isOpen := isOpen p; images := images p; currentIndex := i;
     title := title p; onPrevious := onPrevious p; onNext := onNext p;
     onIndexChange := onIndexChange p |}.

(** Modelled from the spec: the page that holds [currentIndex] in its own
    state and hands it to the viewer is not part of the sources.  The
    viewer is a controlled component: the index changes only when the
    owner reacts to [onIndexChange(newIndex)], and the owner this model
    takes stores the index it is notified of.  What an owner does on the
    legacy [onPrevious]/[onNext] is its own business and is left alone. *)
Definition notify (p : GalleryViewerProps) (c : Call) : GalleryViewerProps :=
  match c with
  | CallOnIndexChange i => withIndex p i
  | _ => p
  end.

(** One [changeIndexBy delta], followed by the owner's re-render. *)
Definition step (p : GalleryViewerProps) (delta : Z) : GalleryViewerProps :=
  fold_left notify (changeIndexBy p delta) p.

(** The [currentIndex] seen after each of a sequence of steps. *)
Fixpoint trajectory (p : GalleryViewerProps) (deltas : list Z) : list Z :=
  match deltas with
  | [] => []
  | d :: ds => let p' := step p d in currentIndex p' :: trajectory p' ds
  end.

(** The moves of one continuous touch.  Every move comes with the props of
    the render that is current when it arrives, so that anything else may
    happen to the viewer in between. *)
Fixpoint touchMoves (touchStartX : option Q)
    (moves : list (GalleryViewerProps * Q)) : option Q * list Call :=
  match moves with
  | [] => (touchStartX, [])
  | (p, clientX) :: rest =>
      let '(ref, calls) := onTouchMove touchStartX p clientX in
      let '(ref', calls') := touchMoves ref rest in
      (ref', calls ++ calls')
  end.

(** touchstart at [x0], the moves, touchend: all calls made. *)
Definition touch (x0 : Q) (moves : list (GalleryViewerProps * Q)) : list Call :=
  snd (touchMoves (onTouchStart x0) moves).

(** The sign of a rational, as a step. *)
Definition sign (d : Q) : Z := Z.sgn (Qnum d).

End Owner.

(** ** transformConfig of the zoomable maps *)

Module ZoomableMap.
Local Open Scope Q_scope.

Record Toggle := { disabled : bool }.

Record DoubleClick := { dc_disabled : bool; mode : string; step : Q }.

Record TransformConfig := {
  minScale : Q;
  maxScale : Q;
  initialScale : Q;
  wheel : Toggle;
  pinch : Toggle;
  pan : Toggle;
  doubleClick : DoubleClick
}.

(** The zoom props of the three map components, with their defaults
    [enableZoom = true], [minScale = 0.5], [maxScale = 3],
    [initialScale = 1]. *)
Record ZoomProps := {
  enableZoom : bool;
  p_minScale : Q;
  p_maxScale : Q;
  p_initialScale : Q
}.

Definition defaultZoomProps : ZoomProps :=
  {| enableZoom := true; p_minScale := 5 # 10; p_maxScale := 3;
     p_initialScale := 1 |}.

(** [ZoomableOverviewMap], [ZoomableMapContainer] and [ZoomableIslandMap]
    each build this same object from [useDevice()] and their props. *)
Definition transformConfig (isMobile isTablet : bool) (props : ZoomProps)
    : TransformConfig :=
  {| minScale := if isMobile || isTablet then 8 # 10 else p_minScale props;
     maxScale := if isMobile || isTablet then 4 else p_maxScale props;
     initialScale := if isMobile || isTablet then 9 # 10 else p_initialScale props;
     wheel := {| disabled := isMobile || isTablet |};
     pinch := {| disabled := false |};
     pan := {| disabled := false |};
     doubleClick := {| dc_disabled := false; mode := "zoomIn"; step := 7 # 10 |} |}.

(** Whether the map is wrapped in a [TransformWrapper] fed with
    [transformConfig]; otherwise the bare map content is rendered. *)
Definition usesTransformWrapper (isMobile isTablet : bool) (props : ZoomProps)
    : bool :=
  (isMobile || isTablet) && enableZoom props.

End ZoomableMap.

(** ** Icon layout of ZoomableMapContainer *)

Module MapLayout.
Local Open Scope Q_scope.

(** The [imageLayout] state of [ZoomableMapContainer]: the measured image
    box, offsets relative to the container. *)
Record ImageLayout := {
  width : Q;
  height : Q;
  offsetLeft : Q;
  offsetTop : Q
}.

(** The state before the first measurement. *)
Definition initialImageLayout : ImageLayout :=
  {| width := 0; height := 0; offsetLeft := 0; offsetTop := 0 |}.

Inductive IconType := emoji | image.

(** Modelled from the spec: the [MapIcon] type of [utils/mapConfig] is not
    part of the sources; its fields are those of the spec's IconSpec
    (id, xPercent, yPercent, sizePixels, visualVariant, title). *)
Record MapIcon := {
  id : string;
  x : Q;
  y : Q;
  size : Q;
  iconType : IconType;
  title : string
}.

Record IconLayout := {
  iconId : string;
  pixelX : Q;
  pixelY : Q;
  pixelSize : Q;
  zIndex : Z
}.

(** Modelled from the spec: the [MapIcon] component ([./MapIcon]) that
    [ZoomableMapContainer] renders for each icon is not part of the
    sources.  The spec gives its layout: pixelX = imageOffsetX +
    (xPercent/100) * imageWidth, pixelY = imageOffsetY + (yPercent/100) *
    imageHeight, pixelSize = sizePixels * scale, stacked at the z-index the
    caller passes. *)
Definition MapIconComponent (icon : MapIcon) (imageLayout : ImageLayout)
    (scale : Q) (zIndex : Z) : IconLayout :=
  {| iconId := id icon;
     pixelX := offsetLeft imageLayout + (x icon / 100) * width imageLayout;
     pixelY := offsetTop imageLayout + (y icon / 100) * height imageLayout;
     pixelSize := size icon * scale;
     zIndex := zIndex |}.

(** [array.map((item, index) => f(item, index))] *)
Fixpoint mapi_from {A B} (f : A -> Z -> B) (index : Z) (l : list A) : list B :=
  match l with
  | [] => []
  | a :: l' => f a index :: mapi_from f (index + 1)%Z l'
  end.


End MapLayout.

(** ** The step arithmetic *)

Import GalleryViewer Owner.

(** The step of the specification, [((currentIndex + delta) % itemCount +
    itemCount) % itemCount], read with the same truncating [%]. *)
Definition step_formula (itemCount cur delta : Z) : Z :=
  Z.rem (Z.rem (cur + delta) itemCount + itemCount) itemCount.


(** [Number.MAX_SAFE_INTEGER] *)
Definition MAX_SAFE_INTEGER : Z := 2 ^ 53 - 1.

(** [Number.isSafeInteger] on an integer. *)
Definition safeInteger (x : Z) : Prop :=
  - MAX_SAFE_INTEGER <= x <= MAX_SAFE_INTEGER.

(** The operands and the two partial sums of
    [currentIndex + delta + images.length] are safe integers, so that the
    source computes both sums without rounding, as [nextIndex] does. *)
Definition exactSums (len cur delta : Z) : Prop :=
  safeInteger len /\ safeInteger cur /\ safeInteger delta
  /\ safeInteger (cur + delta) /\ safeInteger (cur + delta + len).

(** Three pictures, the first one shown, wired with [onIndexChange]. *)
Definition three : GalleryViewerProps :=
  {| isOpen := true;
     images := [ {| src := "a.webp"; label := "a" |};
                 {| src := "b.webp"; label := "b" |};
                 {| src := "c.webp"; label := "c" |} ];
     currentIndex := 0; title := "t";
     onPrevious := false; onNext := false; onIndexChange := true |}.

(** The same pictures behind the legacy callbacks only. *)
Definition threeLegacy : GalleryViewerProps :=
  {| isOpen := true; images := images three; currentIndex := 1; title := "t";
     onPrevious := true; onNext := true; onIndexChange := false |}.

(** No pictures at all, asked to open. *)
Definition none : GalleryViewerProps :=
  {| isOpen := true; images := []; currentIndex := 0; title := "t";
     onPrevious := true; onNext := true; onIndexChange := true |}.

(** The displacement of a move from the start [x0] of its touch, current
    position minus start, is at most the threshold in absolute value. *)
Definition within (x0 : Q) (m : GalleryViewerProps * Q) : Prop :=
  (Qabs (snd m - x0) <= 50)%Q.


Definition scenarioLayout : MapLayout.ImageLayout :=
  {| MapLayout.width := 200; MapLayout.height := 100;
     MapLayout.offsetLeft := 10; MapLayout.offsetTop := 5 |}.

(** The configuration on a phone and on a desktop, default props. *)
Definition touchConfig : ZoomableMap.TransformConfig :=
  ZoomableMap.transformConfig true false ZoomableMap.defaultZoomProps.

Definition pointerConfig : ZoomableMap.TransformConfig :=
  ZoomableMap.transformConfig false false ZoomableMap.defaultZoomProps.

(** A caller that raises the lower bound of the zoom. *)
Definition raisedZoomProps : ZoomableMap.ZoomProps :=
  {| ZoomableMap.enableZoom := true; ZoomableMap.p_minScale := 1;
     ZoomableMap.p_maxScale := 3; ZoomableMap.p_initialScale := 1 |}.

(** ** Enumeration order of the properties of an object *)

Module JSObject.

(** An array index: the decimal numeral, without sign or leading zero, of an
    integer from 0 to 2^32 - 2. *)
Definition arrayIndex (key : string) : option N :=
  match NilZero.uint_of_string key with
  | Some d =>
      let n := N.of_uint d in
      if String.eqb (NilZero.string_of_uint (N.to_uint n)) key
         && (n <? 2 ^ 32 - 1)%N
      then Some n
      else None
  | None => None
  end.

Fixpoint insertIndexed {V} (n : N) (v : V) (l : list (N * V)) : list (N * V) :=
  match l with
  | [] => [(n, v)]
  | (m, w) :: rest =>
      if (n <=? m)%N then (n, v) :: l else (m, w) :: insertIndexed n v rest
  end.

(** An object is given by its own string-keyed properties in the order
    they were created, the keys pairwise distinct.  The properties whose key
    is an array index, by ascending index. *)
Definition indexed {V} (o : list (string * V)) : list (N * V) :=
  fold_right
    (fun kv acc =>
       match arrayIndex (fst kv) with
       | Some n => insertIndexed n (snd kv) acc
       | None => acc
       end)
    [] o.

(** The other properties, in creation order. *)
Definition named {V} (o : list (string * V)) : list (string * V) :=
  filter (fun kv => match arrayIndex (fst kv) with
                    | Some _ => false
                    | None => true
                    end) o.

(** [Object.values(o)]: array indices first, by ascending index, then the
    other keys in creation order. *)
Definition values {V} (o : list (string * V)) : list V :=
  map snd (indexed o) ++ map snd (named o).

End JSObject.

(** ** Measurement and icon props of ZoomableMapContainer *)

Module ZoomableMapContainer.
Local Open Scope Q_scope.

(** The part of a [getBoundingClientRect()] result that [update] reads. *)
Record DOMRect := { left : Q; top : Q; width : Q; height : Q }.

(** The two pieces of state [update] writes. *)
Record Measured := {
  containerWidth : Q;
  imageLayout : MapLayout.ImageLayout
}.

(** [useState(0)] and [useState({ width: 0, height: 0, offsetLeft: 0,
    offsetTop: 0 })]. *)
Definition initial : Measured :=
  {| containerWidth := 0; imageLayout := MapLayout.initialImageLayout |}.

(** [update], as a function of the rectangle of the container and, when
    [mapImageRef.current] is set, of the rectangle of the image. *)
Definition update (st : Measured) (cRect : DOMRect) (iRect : option DOMRect)
    : Measured :=
  {| containerWidth := width cRect;
     imageLayout :=
       match iRect with
       | None => imageLayout st
       | Some iRect =>
           {| MapLayout.width := width iRect;
              MapLayout.height := height iRect;
              MapLayout.offsetLeft := left iRect - left cRect;
              MapLayout.offsetTop := top iRect - top cRect |}
       end |}.

(** A rectangle moved by [(dx, dy)], as scrolling the page does. *)
Definition shifted (dx dy : Q) (r : DOMRect) : DOMRect :=
  {| left := left r + dx; top := top r + dy;
     width := width r; height := height r |}.

(** The props each [MapIconComponent] receives. *)
Record MapIconProps := {
  key : string;
  icon : MapLayout.MapIcon;
  p_imageLayout : MapLayout.ImageLayout;
  p_scale : Q;
  zIndex : Z
}.

(** [Object.values(config.icons).map((icon, index) => ...)], the props
    side of it; [icons] is the object [config.icons]. *)
Definition iconProps (icons : list (string * MapLayout.MapIcon))
    (imageLayout : MapLayout.ImageLayout) (scale : Q) : list MapIconProps :=
  MapLayout.mapi_from
    (fun icon index =>
       {| key := MapLayout.id icon; icon := icon; p_imageLayout := imageLayout;
          p_scale := scale; zIndex := (10 + index)%Z |})
    0%Z (JSObject.values icons).

End ZoomableMapContainer.

(** ** Icons of ZoomableOverviewMap and ZoomableIslandMap *)

Module MapIcons.
Local Open Scope Q_scope.

(** What is drawn inside an icon. *)
Inductive Content :=
| Img (src alt : string)
| Emoji (e : option string).

(** A string prop in a condition: unset and empty are both falsy. *)
Definition truthy (s : option string) : bool :=
  match s with
  | Some (String _ _) => true
  | _ => false
  end.

(** [icon.iconType === 'image' && icon.icon ? <img .../> : icon.emoji] *)
Definition content (iconType : option MapLayout.IconType)
    (icon : option string) (title : string) (emoji : option string) : Content :=
  match iconType, icon with
  | Some MapLayout.image, Some (String c rest) => Img (String c rest) title
  | _, _ => Emoji emoji
  end.

(** An array index in a template literal: its decimal digits. *)
Definition decimal (index : nat) : string :=
  NilZero.string_of_uint (Nat.to_uint index).

(** [`${icon.title}-${index}`] *)
Definition iconKey (title : string) (index : nat) : string :=
  (title ++ "-" ++ decimal index)%string.

(** [array.map((item, index) => f(index, item))] *)
Definition mapi {A B} (f : nat -> A -> B) (l : list A) : list B :=
  map (fun ia => f (fst ia) (snd ia)) (combine (seq 0 (List.length l)) l).

(** The props of one rendered icon. *)
Record IconProps := {
  key : string;
  x : Q;
  y : Q;
  size : Q;
  delay : Q;
  hoverScale : Q;
  inner : Content
}.

(** [MapIcon] of [ZoomableOverviewMap]. *)
Record MapIcon := {
  m_x : Q;
  m_y : Q;
  m_emoji : option string;
  m_icon : option string;
  m_title : string;
  m_iconType : option MapLayout.IconType;
  m_iconSize : option Q
}.

(** [icon.iconSize || 30]: unset and 0 are both falsy. *)
Definition iconSizeOrDefault (iconSize : option Q) : Q :=
  match iconSize with
  | Some s => if Qeq_bool s 0 then 30 else s
  | None => 30
  end.

(** The [LocationIcon]s of [ZoomableOverviewMap]. *)
Definition locationIcons (isMobile isTablet : bool) (mapIcons : list MapIcon)
    : list IconProps :=
  mapi (fun index icon =>
          {| key := iconKey (m_title icon) index;
             x := m_x icon; y := m_y icon;
             size := iconSizeOrDefault (m_iconSize icon);
             delay := 1 + inject_Z (Z.of_nat index) * (2 # 10);
             hoverScale := if isMobile || isTablet then 11 # 10 else 12 # 10;
             inner := content (m_iconType icon) (m_icon icon) (m_title icon)
                              (m_emoji icon) |})
       mapIcons.

(** [CheckInIcon] of [ZoomableIslandMap]. *)
Record CheckInIcon := {
  c_x : Q;
  c_y : Q;
  c_emoji : option string;
  c_icon : option string;
  c_title : string;
  c_iconType : MapLayout.IconType;
  c_size : Q
}.

(** The [IconContainer]s of [ZoomableIslandMap]. *)
Definition iconContainers (isMobile isTablet : bool)
    (checkInIcons : list CheckInIcon) : list IconProps :=
  mapi (fun index icon =>
          {| key := iconKey (c_title icon) index;
             x := c_x icon; y := c_y icon;
             size := c_size icon;
             delay := 1 + inject_Z (Z.of_nat index) * (1 # 10);
             hoverScale := if isMobile || isTablet then 11 # 10 else 12 # 10;
             inner := content (Some (c_iconType icon)) (c_icon icon)
                              (c_title icon) (c_emoji icon) |})
       checkInIcons.

End MapIcons.

(** ** What the map components render *)

Inductive Component := Overview | Container | Island.

(** The outcome of rendering a map component: a [ReferenceError], the bare
    map content, or the map content inside a [TransformWrapper] that
    receives the configuration. *)
Inductive Frame :=
| Throws
| Bare
| Wrapped (config : ZoomableMap.TransformConfig).

(** The touch branch of all three components renders [<AnimatePresence>];
    [ZoomableOverviewMap] and [ZoomableIslandMap] import it from
    framer-motion, [ZoomableMapContainer] imports only [motion]. *)
Definition importsAnimatePresence (c : Component) : bool :=
  match c with
  | Container => false
  | Overview | Island => true
  end.

(** [(isMobile || isTablet) && enableZoom ? <div> <AnimatePresence> ...
    <TransformWrapper {...transformConfig}> ... : <MapContent />] *)
Definition mapFrame (c : Component) (isMobile isTablet : bool)
    (props : ZoomableMap.ZoomProps) : Frame :=
  if ZoomableMap.usesTransformWrapper isMobile isTablet props
  then if importsAnimatePresence c
       then Wrapped (ZoomableMap.transformConfig isMobile isTablet props)
       else Throws
  else Bare.

(** The icons [ZoomableMapContainer] puts on the map, when it renders. *)
Definition containerIcons (isMobile isTablet : bool)
    (props : ZoomableMap.ZoomProps) (icons : list (string * MapLayout.MapIcon))
    (imageLayout : MapLayout.ImageLayout) (scale : Q)
    : option (list ZoomableMapContainer.MapIconProps) :=
  match mapFrame Container isMobile isTablet props with
  | Throws => None
  | Bare | Wrapped _ =>
      Some (ZoomableMapContainer.iconProps icons imageLayout scale)
  end.

(** Icons created under the keys b, 2 and 1, in this order. *)
Definition mixedIcons : list (string * MapLayout.MapIcon) :=
  map (fun k => (k, {| MapLayout.id := k; MapLayout.x := 50; MapLayout.y := 50;
                       MapLayout.size := 24; MapLayout.iconType := MapLayout.emoji;
                       MapLayout.title := k |}))
      [ "b"%string; "2"%string; "1"%string ].

(** ** The input channels of the viewer *)

(** One input event of the viewer: a wheel event, a key press, a touch move
    arriving with the swipe ref in some state, a click on the dot of an
    index. *)
Inductive Event :=
| Wheel (deltaY : Q)
| Key (key : string)
| TouchMove (touchStartX : option Q) (clientX : Q)
| DotClick (idx : Z).

(** The calls the handler of an event makes. *)
Definition dispatch (p : GalleryViewerProps) (e : Event) : list Call :=
  match e with
  | Wheel deltaY => handleWheel p deltaY
  | Key key => keyHandler p key
  | TouchMove touchStartX clientX => snd (onTouchMove touchStartX p clientX)
  | DotClick idx => clickDot p idx
  end.

(** Sample inputs. *)
Definition single : GalleryViewerProps :=
  {| isOpen := true; images := [ {| src := "a.webp"; label := "a" |} ];
     currentIndex := 5; title := "t";
     onPrevious := true; onNext := true; onIndexChange := true |}.

Definition closed : GalleryViewerProps :=
  {| isOpen := false; images := images three; currentIndex := 0; title := "t";
     onPrevious := true; onNext := true; onIndexChange := true |}.

Definition overviewIcons : list MapIcons.MapIcon :=
  [ {| MapIcons.m_x := 30; MapIcons.m_y := 30; MapIcons.m_emoji := Some "h"%string;
       MapIcons.m_icon := None; MapIcons.m_title := "spot";
       MapIcons.m_iconType := Some MapLayout.emoji; MapIcons.m_iconSize := None |};
    {| MapIcons.m_x := 70; MapIcons.m_y := 50; MapIcons.m_emoji := None;
       MapIcons.m_icon := Some "pin.webp"%string; MapIcons.m_title := "spot";
       MapIcons.m_iconType := Some MapLayout.image;
       MapIcons.m_iconSize := Some 0%Q |} ].

Lemma step_formula_mod (n cur delta : Z) :
  0 < n -> step_formula n cur delta = (cur + delta) mod n.
Proof.
  intros Hn. unfold step_formula.
  pose proof (Z.rem_bound_abs (cur + delta) n ltac:(lia)) as Hb.
  rewrite Z.rem_mod_nonneg by lia.
  rewrite <- (Z.mul_1_l n) at 2. rewrite Z.mod_add by lia.
  pose proof (Z.quot_rem' (cur + delta) n) as Hq.
  symmetry. rewrite Hq at 1.
  rewrite Z.add_comm, Z.mul_comm, Z.mod_add by lia. reflexivity.
Qed.

Lemma nextIndex_mod (n cur delta : Z) :
  0 < n -> 0 <= cur + delta + n -> nextIndex n cur delta = (cur + delta) mod n.
Proof.
  intros Hn Hs. unfold nextIndex.
  rewrite Z.rem_mod_nonneg by lia.
  rewrite <- (Z.mul_1_l n) at 1. apply Z.mod_add. lia.
Qed.

Lemma nextIndex_range (n cur delta : Z) :
  0 < n -> 0 <= cur + delta + n -> 0 <= nextIndex n cur delta < n.
Proof.
  intros Hn Hs. rewrite nextIndex_mod by assumption.
  apply Z.mod_pos_bound. assumption.
Qed.

Lemma nextIndex_there_and_back (n cur : Z) :
  0 < n -> 0 <= cur < n -> nextIndex n (nextIndex n cur 1) (-1) = cur.
Proof.
  intros Hn Hc.
  pose proof (nextIndex_range n cur 1 Hn ltac:(lia)) as Hr.
  rewrite (nextIndex_mod n (nextIndex n cur 1) (-1)) by lia.
  rewrite (nextIndex_mod n cur 1) by lia.
  destruct (Z.eq_dec (cur + 1) n) as [E | E].
  - rewrite E, Z.mod_same by lia. simpl.
    replace (-1) with (n - 1 + (-1) * n) by lia.
    rewrite Z.mod_add by lia. rewrite Z.mod_small by lia. lia.
  - rewrite (Z.mod_small (cur + 1)) by lia.
    replace (cur + 1 + -1) with cur by lia. apply Z.mod_small. lia.
Qed.

Lemma images_length_withIndex (p : GalleryViewerProps) (i : Z) :
  images_length (withIndex p i) = images_length p.
Proof. reflexivity. Qed.

(** With [onIndexChange] wired, a step moves the owner to [nextIndex]. *)
Lemma step_direct (p : GalleryViewerProps) (delta : Z) :
  images_length p <> 0 -> onIndexChange p = true ->
  step p delta = withIndex p (nextIndex (images_length p) (currentIndex p) delta).
Proof.
  intros Hn Hc. unfold step, changeIndexBy.
  apply Z.eqb_neq in Hn. rewrite Hn, Hc. reflexivity.
Qed.

(** Without it, or without pictures, the owner modelled here stays put. *)
Lemma step_legacy (p : GalleryViewerProps) (delta : Z) :
  images_length p = 0 \/ onIndexChange p = false -> step p delta = p.
Proof.
  intros H. unfold step, changeIndexBy.
  destruct (images_length p =? 0) eqn:E; [reflexivity|].
  destruct H as [H | H]; [apply Z.eqb_neq in E; contradiction|].
  rewrite H.
  destruct ((delta <? 0) && onPrevious p); [reflexivity|].
  destruct ((0 <? delta) && onNext p); reflexivity.
Qed.

Lemma step_cases (p : GalleryViewerProps) (delta : Z) :
  step p delta = p \/
  (images_length p <> 0 /\
   step p delta = withIndex p (nextIndex (images_length p) (currentIndex p) delta)).
Proof.
  destruct (Z.eq_dec (images_length p) 0) as [E | E].
  - left. apply step_legacy. left. exact E.
  - destruct (onIndexChange p) eqn:C.
    + right. split; [exact E|]. apply step_direct; assumption.
    + left. apply step_legacy. right. exact C.
Qed.

Lemma images_length_step (p : GalleryViewerProps) (delta : Z) :
  images_length (step p delta) = images_length p.
Proof.
  destruct (step_cases p delta) as [-> | [_ ->]]; reflexivity.
Qed.

Lemma onIndexChange_step (p : GalleryViewerProps) (delta : Z) :
  onIndexChange (step p delta) = onIndexChange p.
Proof.
  destruct (step_cases p delta) as [-> | [_ ->]]; reflexivity.
Qed.

Lemma step_in_range (p : GalleryViewerProps) (delta : Z) :
  1 <= images_length p ->
  0 <= currentIndex p < images_length p ->
  - images_length p <= delta ->
  0 <= currentIndex (step p delta) < images_length p.
Proof.
  intros Hn Hc Hd.
  destruct (step_cases p delta) as [-> | [_ ->]]; [exact Hc|].
  simpl. apply nextIndex_range; lia.
Qed.

(** ** Claims on the step *)

(** C1 (as amended).  With [itemCount >= 1], [currentIndex] in
    [[0, itemCount - 1]], [onIndexChange] wired and a delta with
    [currentIndex + delta + itemCount >= 0] for which the sums of the step
    are sums of safe integers (the deltas +1 and -1 of the wheel, the swipe
    and the keyboard are such), [changeIndexBy] reports exactly
    [((currentIndex + delta) % itemCount + itemCount) % itemCount] and the
    owner lands there; with three items at index 0, a step of -1 lands
    on 2. *)
Theorem changeIndexBy_step_formula :
  (forall (p : GalleryViewerProps) (delta : Z),
      1 <= images_length p ->
      0 <= currentIndex p < images_length p ->
      onIndexChange p = true ->
      0 <= currentIndex p + delta + images_length p ->
      exactSums (images_length p) (currentIndex p) delta ->
      changeIndexBy p delta =
        [CallOnIndexChange (step_formula (images_length p) (currentIndex p) delta)]
      /\ currentIndex (step p delta) =
           step_formula (images_length p) (currentIndex p) delta)
  /\ (forall p : GalleryViewerProps,
         images_length p = 3 -> currentIndex p = 0 -> onIndexChange p = true ->
         changeIndexBy p (-1) = [CallOnIndexChange 2]
         /\ currentIndex (step p (-1)) = 2).
Proof.
  assert (G : forall p delta,
             1 <= images_length p ->
             0 <= currentIndex p < images_length p ->
             onIndexChange p = true ->
             0 <= currentIndex p + delta + images_length p ->
             changeIndexBy p delta =
               [CallOnIndexChange (step_formula (images_length p) (currentIndex p) delta)]
             /\ currentIndex (step p delta) =
                  step_formula (images_length p) (currentIndex p) delta).
  { intros p delta Hn Hc Ho Hd.
    assert (E : nextIndex (images_length p) (currentIndex p) delta =
                step_formula (images_length p) (currentIndex p) delta).
    { rewrite nextIndex_mod, step_formula_mod by lia. reflexivity. }
    split.
    - unfold changeIndexBy.
      replace (images_length p =? 0) with false by (symmetry; apply Z.eqb_neq; lia).
      rewrite Ho, E. reflexivity.
    - rewrite step_direct by (assumption || lia). simpl. exact E. }
  split.
  - intros p delta Hn Hc Ho Hd _. apply G; assumption.
  - intros p Hn Hc Ho.
    destruct (G p (-1)) as [G1 G2]; try assumption; try lia.
    rewrite Hn, Hc in G1, G2. exact (conj G1 G2).
Qed.

Lemma changeIndexBy_step_formula_witness :
  (changeIndexBy three 5 = [CallOnIndexChange 2]
   /\ currentIndex (step three 5) = 2)
  /\ (changeIndexBy three (-1) = [CallOnIndexChange 2]
      /\ currentIndex (step three (-1)) = 2).
Proof.
  split.
  - apply (proj1 changeIndexBy_step_formula three 5).
    + vm_compute. discriminate.
    + vm_compute. split; [discriminate | reflexivity].
    + reflexivity.
    + vm_compute. discriminate.
    + vm_compute. repeat split; discriminate.
  - apply (proj2 changeIndexBy_step_formula three); reflexivity.
Defined.

(** C1 as stated fails for a delta below [-(currentIndex + itemCount)]: with
    three items at index 0, [changeIndexBy (-4)] reports -1 where the formula
    gives 2. *)
Lemma changeIndexBy_step_formula_counterexample :
  1 <= images_length three
  /\ 0 <= currentIndex three < images_length three
  /\ changeIndexBy three (-4) = [CallOnIndexChange (-1)]
  /\ step_formula (images_length three) (currentIndex three) (-4) = 2
  /\ currentIndex (step three (-4)) <>
       step_formula (images_length three) (currentIndex three) (-4).
Proof.
  repeat split; try reflexivity; try (vm_compute; discriminate).
Qed.

(** C2 (as amended).  With [itemCount >= 1] and a start in
    [[0, itemCount - 1]], after each step of a sequence whose deltas are all
    at least [-itemCount] (so after any sequence of +1 and -1), the
    [currentIndex] is in [[0, itemCount - 1]]. *)
Theorem trajectory_in_range (p : GalleryViewerProps) (deltas : list Z) :
  1 <= images_length p ->
  0 <= currentIndex p < images_length p ->
  Forall (fun d => - images_length p <= d) deltas ->
  Forall (fun i => 0 <= i < images_length p) (trajectory p deltas).
Proof.
  intros Hn Hc Hd. revert p Hn Hc Hd.
  induction deltas as [| d ds IH]; intros p Hn Hc Hd; simpl.
  - constructor.
  - inversion Hd as [| ? ? Hd1 Hd2]; subst.
    pose proof (step_in_range p d Hn Hc Hd1) as Hs.
    constructor; [exact Hs|].
    rewrite <- (images_length_step p d).
    apply IH; rewrite ?images_length_step; assumption.
Qed.

Lemma trajectory_in_range_witness :
  Forall (fun i => 0 <= i < 3) (trajectory three [1; 1; 1; -1; -3; 5]).
Proof.
  apply (trajectory_in_range three [1; 1; 1; -1; -3; 5]).
  - vm_compute. discriminate.
  - vm_compute. split; [discriminate | reflexivity].
  - repeat constructor; vm_compute; discriminate.
Defined.

(** C2 as stated fails for arbitrary deltas: with three items at index 0, the
    single step -4 leaves the index at -1. *)
Lemma trajectory_in_range_counterexample :
  1 <= images_length three
  /\ 0 <= currentIndex three < images_length three
  /\ trajectory three [-4] = [-1]
  /\ ~ Forall (fun i => 0 <= i < images_length three) (trajectory three [-4]).
Proof.
  repeat split; try reflexivity; try (vm_compute; discriminate).
  intros H. inversion H as [| ? ? [H0 _] _]; subst. vm_compute in H0. apply H0. reflexivity.
Qed.

(** C9.  With [itemCount >= 1] and a start in [[0, itemCount - 1]], a step of
    +1 followed by a step of -1 restores the [currentIndex]. *)
Theorem step_forward_backward (p : GalleryViewerProps) :
  1 <= images_length p ->
  0 <= currentIndex p < images_length p ->
  currentIndex (step (step p 1) (-1)) = currentIndex p.
Proof.
  intros Hn Hc.
  destruct (onIndexChange p) eqn:Ho.
  - rewrite (step_direct p 1) by (assumption || lia).
    rewrite step_direct;
      [| rewrite images_length_withIndex; lia | exact Ho].
    rewrite images_length_withIndex. simpl.
    apply nextIndex_there_and_back; lia.
  - rewrite (step_legacy p 1) by (right; assumption).
    rewrite step_legacy by (right; assumption). reflexivity.
Qed.

Lemma step_forward_backward_witness :
  currentIndex (step (step three 1) (-1)) = 0
  /\ step three 1 = withIndex three 1.
Proof.
  split; [|reflexivity].
  apply (step_forward_backward three).
  - vm_compute. discriminate.
  - vm_compute. split; [discriminate | reflexivity].
Defined.

(** ** Claims on the indicator dots *)

Lemma dots_indices (p : GalleryViewerProps) :
  map fst (dots p) = map Z.of_nat (seq 0 (List.length (images p))).
Proof.
  unfold dots. rewrite map_map. apply map_ext. intros n. reflexivity.
Qed.




Lemma changeIndexBy_cases (p : GalleryViewerProps) (delta : Z) :
  changeIndexBy p delta = []
  \/ (onIndexChange p = true /\ images_length p <> 0 /\
      changeIndexBy p delta =
        [CallOnIndexChange (nextIndex (images_length p) (currentIndex p) delta)])
  \/ (onIndexChange p = false /\ delta < 0 /\ onPrevious p = true /\
      changeIndexBy p delta = [CallOnPrevious])
  \/ (onIndexChange p = false /\ 0 < delta /\ onNext p = true /\
      changeIndexBy p delta = [CallOnNext]).
Proof.
  unfold changeIndexBy.
  destruct (images_length p =? 0) eqn:E0; [left; reflexivity|].
  apply Z.eqb_neq in E0.
  destruct (onIndexChange p); [right; left; auto|].
  destruct (delta <? 0) eqn:Ed; simpl.
  - apply Z.ltb_lt in Ed. destruct (onPrevious p); [right; right; left; auto|].
    replace (0 <? delta) with false by (symmetry; apply Z.ltb_ge; lia).
    left. reflexivity.
  - destruct (0 <? delta) eqn:Ep; simpl; [|left; reflexivity].
    apply Z.ltb_lt in Ep.
    destruct (onNext p); [right; right; right; auto | left; reflexivity].
Qed.





(** ** Claims on the wheel *)

Lemma Qgtb_true (a b : Q) : Qgtb a b = true <-> (b < a)%Q.
Proof.
  unfold Qgtb. rewrite negb_true_iff. split.
  - intros H. apply Qnot_le_lt. intros L.
    apply Qle_bool_iff in L. congruence.
  - intros H. destruct (Qle_bool a b) eqn:E; [|reflexivity].
    apply Qle_bool_iff in E. exfalso. exact (Qlt_not_le _ _ H E).
Qed.

Lemma Qgtb_false (a b : Q) : Qgtb a b = false <-> (a <= b)%Q.
Proof.
  unfold Qgtb. rewrite negb_false_iff. apply Qle_bool_iff.
Qed.

Lemma handleWheel_active (p : GalleryViewerProps) (deltaY : Q) :
  isOpen p = true -> 1 < images_length p ->
  handleWheel p deltaY =
    CallPreventDefault :: changeIndexBy p (if Qgtb deltaY 0 then 1 else -1).
Proof.
  intros Ho Hn. unfold handleWheel. rewrite Ho.
  replace (images_length p <=? 1) with false by (symmetry; apply Z.leb_gt; lia).
  reflexivity.
Qed.

(** C4.  While the viewer is open with more than one item, a wheel event
    with vertical delta > 0 makes exactly the calls of [changeIndexBy 1] and
    one with vertical delta < 0 exactly those of [changeIndexBy (-1)] (after
    [preventDefault]); while it is closed or has at most one item, a wheel
    event makes no call at all, so the index does not change. *)
Theorem handleWheel_steps (p : GalleryViewerProps) (deltaY : Q) :
  (isOpen p = true -> 1 < images_length p -> (0 < deltaY)%Q ->
     handleWheel p deltaY = CallPreventDefault :: changeIndexBy p 1)
  /\ (isOpen p = true -> 1 < images_length p -> (deltaY < 0)%Q ->
        handleWheel p deltaY = CallPreventDefault :: changeIndexBy p (-1))
  /\ (isOpen p = false \/ images_length p <= 1 ->
        handleWheel p deltaY = []
        /\ fold_left notify (handleWheel p deltaY) p = p).
Proof.
  split; [| split].
  - intros Ho Hn Hd. rewrite handleWheel_active by assumption.
    apply Qgtb_true in Hd. rewrite Hd. reflexivity.
  - intros Ho Hn Hd. rewrite handleWheel_active by assumption.
    apply Qlt_le_weak, Qgtb_false in Hd. rewrite Hd. reflexivity.
  - intros H.
    assert (E : handleWheel p deltaY = []).
    { unfold handleWheel. destruct H as [H | H].
      - rewrite H. reflexivity.
      - replace (images_length p <=? 1) with true by (symmetry; apply Z.leb_le; lia).
        rewrite orb_true_r. reflexivity. }
    rewrite E. split; reflexivity.
Qed.

Lemma handleWheel_steps_witness :
  handleWheel three 120 = [CallPreventDefault; CallOnIndexChange 1]
  /\ handleWheel three (-(1 # 2)) = [CallPreventDefault; CallOnIndexChange 2]
  /\ handleWheel (withIndex none 0) 120 = [].
Proof.
  split; [| split].
  - apply (proj1 (handleWheel_steps three 120)); reflexivity.
  - apply (proj1 (proj2 (handleWheel_steps three (-(1 # 2))))); reflexivity.
  - apply (proj2 (proj2 (handleWheel_steps (withIndex none 0) 120))).
    right. vm_compute. discriminate.
Defined.

(** C10.  While the viewer is open with more than one item, a wheel event
    whose vertical delta is exactly 0 makes the calls of
    [changeIndexBy (-1)]: it is handled like a negative delta. *)
Theorem handleWheel_zero (p : GalleryViewerProps) (deltaY : Q) :
  isOpen p = true -> 1 < images_length p -> (deltaY == 0)%Q ->
  handleWheel p deltaY = CallPreventDefault :: changeIndexBy p (-1).
Proof.
  intros Ho Hn Hd. rewrite handleWheel_active by assumption.
  replace (Qgtb deltaY 0) with false; [reflexivity|].
  symmetry. apply Qgtb_false. rewrite Hd. apply Qle_refl.
Qed.

Lemma handleWheel_zero_witness :
  handleWheel three 0 = [CallPreventDefault; CallOnIndexChange 2].
Proof.
  apply (handleWheel_zero three 0); reflexivity.
Defined.

(** ** Claims on the swipe *)

Lemma sign_beyond (d : Q) :
  (50 < Qabs d)%Q -> (if Qgtb d 0 then 1 else -1) = sign d.
Proof.
  intros H. unfold sign.
  destruct (Qgtb d 0) eqn:E.
  - apply Qgtb_true in E. destruct d as [n den].
    unfold Qlt in E. simpl in *. lia.
  - apply Qgtb_false in E. destruct d as [n den].
    unfold Qle in E. unfold Qlt in H. simpl in *. lia.
Qed.

Lemma onTouchMove_beyond (x0 : Q) (p : GalleryViewerProps) (x : Q) :
  (50 < Qabs (x0 - x))%Q ->
  onTouchMove (Some x0) p x = (None, changeIndexBy p (sign (x0 - x))).
Proof.
  intros H. unfold onTouchMove.
  rewrite (proj2 (Qgtb_true _ _) H), (sign_beyond _ H). reflexivity.
Qed.

Lemma onTouchMove_within (x0 : Q) (p : GalleryViewerProps) (x : Q) :
  (Qabs (x0 - x) <= 50)%Q -> onTouchMove (Some x0) p x = (Some x0, []).
Proof.
  intros H. unfold onTouchMove.
  rewrite (proj2 (Qgtb_false _ _) H). reflexivity.
Qed.

Lemma touchMoves_reset (moves : list (GalleryViewerProps * Q)) :
  touchMoves None moves = (None, []).
Proof.
  induction moves as [| [p x] rest IH]; cbn [touchMoves]; [reflexivity|].
  cbn [onTouchMove]. rewrite IH. reflexivity.
Qed.

Lemma touchMoves_within (x0 : Q) (moves : list (GalleryViewerProps * Q)) :
  Forall (within x0) moves -> touchMoves (Some x0) moves = (Some x0, []).
Proof.
  induction 1 as [| [p x] rest Hm _ IH]; cbn [touchMoves]; [reflexivity|].
  unfold within in Hm. cbn [snd] in Hm. rewrite Qabs_Qminus in Hm.
  rewrite (onTouchMove_within x0 p x Hm), IH. reflexivity.
Qed.

Lemma touchMoves_app (ref : option Q) (l1 l2 : list (GalleryViewerProps * Q)) :
  touchMoves ref (l1 ++ l2) =
    let '(ref1, calls1) := touchMoves ref l1 in
    let '(ref2, calls2) := touchMoves ref1 l2 in
    (ref2, calls1 ++ calls2).
Proof.
  revert ref. induction l1 as [| [p x] rest IH]; intros ref;
    cbn [touchMoves app].
  - destruct (touchMoves ref l2). reflexivity.
  - destruct (onTouchMove ref p x) as [r c]. rewrite IH.
    destruct (touchMoves r rest) as [r1 c1].
    destruct (touchMoves r1 l2) as [r2 c2].
    rewrite app_assoc. reflexivity.
Qed.

Lemma sign_opp (a b : Q) : sign (a - b) = - sign (b - a).
Proof.
  unfold sign. destruct a as [na da], b as [nb db].
  unfold Qminus, Qplus, Qopp. cbn [Qnum Qden].
  rewrite <- Z.sgn_opp. f_equal. ring.
Qed.

(** C5 (as amended).  The displacement of a move is its position minus the
    position where the touch started.  In one continuous touch, the first
    move whose displacement exceeds 50 in absolute value makes exactly the
    calls of one [changeIndexBy] whose delta is the opposite of the sign of
    that displacement (a finger gone left steps by +1, a finger gone right
    by -1) and clears the start, and whatever moves follow in the same touch
    make no call; a touch whose displacements all stay at or below 50 makes
    no call, and so does a single move 30 units away on either side. *)
Theorem touch_swipe (x0 : Q) :
  (forall before p x after,
      Forall (within x0) before -> (50 < Qabs (x - x0))%Q ->
      onTouchMove (Some x0) p x = (None, changeIndexBy p (- sign (x - x0)))
      /\ (sign (x - x0) = 1 \/ sign (x - x0) = -1)
      /\ touchMoves None after = (None, [])
      /\ touch x0 (before ++ (p, x) :: after) = changeIndexBy p (- sign (x - x0)))
  /\ (forall p x, (x < x0 - 50)%Q ->
        onTouchMove (Some x0) p x = (None, changeIndexBy p 1))
  /\ (forall p x, (x0 + 50 < x)%Q ->
        onTouchMove (Some x0) p x = (None, changeIndexBy p (-1)))
  /\ (forall moves, Forall (within x0) moves -> touch x0 moves = [])
  /\ (forall p x, (Qabs (x - x0) <= 50)%Q ->
        onTouchMove (Some x0) p x = (Some x0, []))
  /\ (forall p, onTouchMove (Some x0) p (x0 - 30)%Q = (Some x0, [])
                /\ onTouchMove (Some x0) p (x0 + 30)%Q = (Some x0, [])).
Proof.
  assert (B : forall p x, (50 < Qabs (x - x0))%Q ->
              onTouchMove (Some x0) p x = (None, changeIndexBy p (- sign (x - x0)))).
  { intros p x Hx. rewrite Qabs_Qminus in Hx.
    rewrite (onTouchMove_beyond x0 p x Hx), (sign_opp x0 x). reflexivity. }
  assert (S : forall x, (50 < Qabs (x - x0))%Q ->
              ((x0 + 50 < x)%Q /\ sign (x - x0) = 1)
              \/ ((x < x0 - 50)%Q /\ sign (x - x0) = -1)).
  { intros x Hx. pose proof (sign_beyond _ Hx) as Hs.
    destruct (Qgtb (x - x0) 0) eqn:E.
    - left. apply Qgtb_true in E. split; [|symmetry; exact Hs].
      rewrite Qabs_pos in Hx by lra. lra.
    - right. apply Qgtb_false in E. split; [|symmetry; exact Hs].
      rewrite Qabs_neg in Hx by exact E. lra. }
  split; [| split; [| split; [| split; [| split]]]].
  - intros before p x after Hb Hx.
    split; [apply B; exact Hx|].
    split; [destruct (S x Hx) as [[_ H] | [_ H]]; auto|].
    split; [apply touchMoves_reset|].
    unfold touch, onTouchStart. rewrite touchMoves_app.
    rewrite (touchMoves_within x0 before Hb). cbn [touchMoves].
    rewrite (B p x Hx), touchMoves_reset.
    cbn [snd app]. apply app_nil_r.
  - intros p x Hx.
    assert (A : (50 < Qabs (x - x0))%Q) by (rewrite Qabs_neg; lra).
    rewrite (B p x A).
    destruct (S x A) as [[H _] | [_ ->]]; [lra | reflexivity].
  - intros p x Hx.
    assert (A : (50 < Qabs (x - x0))%Q) by (rewrite Qabs_pos; lra).
    rewrite (B p x A).
    destruct (S x A) as [[_ ->] | [H _]]; [reflexivity | lra].
  - intros moves Hm. unfold touch, onTouchStart.
    rewrite (touchMoves_within x0 moves Hm). reflexivity.
  - intros p x Hx. apply onTouchMove_within. rewrite Qabs_Qminus. exact Hx.
  - intros p. split; apply onTouchMove_within.
    + assert (E : (x0 - (x0 - 30) == 30)%Q) by ring.
      rewrite E. vm_compute. discriminate.
    + assert (E : (x0 - (x0 + 30) == -(30))%Q) by ring.
      rewrite E. vm_compute. discriminate.
Qed.

Lemma touch_swipe_witness :
  touch 200 [(three, 180%Q); (three, 140%Q); (withIndex three 1, 90%Q);
             (withIndex three 1, 20%Q)]
    = [CallOnIndexChange 1]
  /\ onTouchMove (Some 200%Q) three 300 = (None, [CallOnIndexChange 2])
  /\ touch 200 [(three, 180%Q); (three, 230%Q); (three, 150%Q)] = []
  /\ onTouchMove (Some 200%Q) three 250 = (Some 200%Q, []).
Proof.
  split; [| split; [| split]].
  - apply (proj1 (touch_swipe 200) [(three, 180%Q)] three 140%Q
             [(withIndex three 1, 90%Q); (withIndex three 1, 20%Q)]).
    + repeat constructor. vm_compute. discriminate.
    + vm_compute. reflexivity.
  - apply (proj1 (proj2 (proj2 (touch_swipe 200))) three 300%Q).
    vm_compute. reflexivity.
  - apply (proj1 (proj2 (proj2 (proj2 (touch_swipe 200))))).
    repeat constructor; vm_compute; discriminate.
  - apply (proj1 (proj2 (proj2 (proj2 (proj2 (touch_swipe 200)))))).
    vm_compute. discriminate.
Defined.

(** C5 as stated fails: a touch started at 200 and moved to 300 has
    displacement +100, of sign +1, yet the step it makes is the one of
    delta -1 (with three items at index 0 it reports 2, where a step of +1
    reports 1). *)
Lemma touch_swipe_counterexample :
  (50 < Qabs (300 - 200))%Q
  /\ sign (300 - 200) = 1
  /\ touch 200 [(three, 300%Q)] = changeIndexBy three (-1)
  /\ changeIndexBy three (-1) = [CallOnIndexChange 2]
  /\ changeIndexBy three (sign (300 - 200)) = [CallOnIndexChange 1]
  /\ touch 200 [(three, 300%Q)] <> changeIndexBy three (sign (300 - 200)).
Proof.
  repeat split; try reflexivity. vm_compute. discriminate.
Qed.

(** ** The empty gallery *)

Lemma changeIndexBy_empty (p : GalleryViewerProps) (delta : Z) :
  images p = [] -> changeIndexBy p delta = [].
Proof.
  intros H. unfold changeIndexBy, images_length. rewrite H. reflexivity.
Qed.

Lemma notify_no_navigation (calls : list Call) (p : GalleryViewerProps) :
  Forall (fun c => isNavigation c = false) calls -> fold_left notify calls p = p.
Proof.
  induction 1 as [| c rest Hc _ IH]; simpl; [reflexivity|].
  destruct c; simpl in Hc; try discriminate; exact IH.
Qed.

(** C6.  With no item, no input channel changes the index or invokes a
    navigation callback ([onIndexChange], [onPrevious], [onNext]): a step
    makes no call, the wheel makes no call, a touch move makes no call, the
    keyboard makes no navigation call, no indicator dot exists to be
    selected; and the viewer renders nothing, even with [isOpen] set. *)
Theorem empty_gallery_inert (p : GalleryViewerProps) :
  images p = [] ->
  (forall delta, changeIndexBy p delta = [])
  /\ (forall deltaY, handleWheel p deltaY = [])
  /\ (forall ref x, snd (onTouchMove ref p x) = [])
  /\ (forall key, Forall (fun c => isNavigation c = false) (keyHandler p key)
                  /\ fold_left notify (keyHandler p key) p = p)
  /\ (dotIndices p = [] /\ forall idx, clickDot p idx = [])
  /\ render p = None.
Proof.
  intros He.
  assert (Hr : render p = None).
  { unfold render, images_length. rewrite He. simpl.
    rewrite orb_true_r. reflexivity. }
  assert (Hd : dotIndices p = []).
  { unfold dotIndices. rewrite Hr. reflexivity. }
  assert (Hk : forall key, Forall (fun c => isNavigation c = false) (keyHandler p key)).
  { intros key. unfold keyHandler. rewrite !changeIndexBy_empty by exact He.
    destruct (negb (isOpen p)); [constructor|].
    destruct (String.eqb key "ArrowLeft"); [repeat constructor|].
    destruct (String.eqb key "ArrowRight"); [repeat constructor|].
    destruct (String.eqb key "Escape"); repeat constructor. }
  split; [intros; apply changeIndexBy_empty; exact He|].
  split.
  { intros deltaY. unfold handleWheel, images_length. rewrite He. simpl.
    rewrite orb_true_r. reflexivity. }
  split.
  { intros ref x. unfold onTouchMove. destruct ref as [s|]; [|reflexivity].
    destruct (Qgtb (Qabs (s - x)) 50); [|reflexivity].
    simpl. apply changeIndexBy_empty. exact He. }
  split.
  { intros key. split; [apply Hk | apply notify_no_navigation, Hk]. }
  split; [|exact Hr].
  split; [exact Hd|]. intros idx. unfold clickDot. rewrite Hd. reflexivity.
Qed.

Lemma empty_gallery_inert_witness :
  isOpen none = true
  /\ render none = None
  /\ keyHandler none "ArrowLeft" = [CallPreventDefault]
  /\ (forall deltaY, handleWheel none deltaY = []).
Proof.
  pose proof (empty_gallery_inert none eq_refl) as H.
  split; [reflexivity|].
  split; [exact (proj2 (proj2 (proj2 (proj2 (proj2 H)))))|].
  split; [reflexivity|].
  exact (proj1 (proj2 H)).
Defined.

(** ** The icon layout *)




(** ** The transform configuration *)

(** C8 (as amended).  The gesture toggles of the transform configuration
    depend on the device tier alone: on the touch tiers (mobile or tablet)
    wheel-to-zoom is disabled while pinch and pan are enabled, with the
    bounds 0.8, 4 and 0.9; on the pointer-only tier wheel-to-zoom is enabled
    and pinch and pan are enabled as well, with the bounds of the caller's
    props. *)
Theorem transformConfig_policy (isMobile isTablet : bool)
    (props : ZoomableMap.ZoomProps) :
  let c := ZoomableMap.transformConfig isMobile isTablet props in
  (isMobile || isTablet = true ->
     ZoomableMap.disabled (ZoomableMap.wheel c) = true
     /\ ZoomableMap.disabled (ZoomableMap.pinch c) = false
     /\ ZoomableMap.disabled (ZoomableMap.pan c) = false
     /\ ZoomableMap.minScale c = (8 # 10)%Q
     /\ ZoomableMap.maxScale c = 4%Q
     /\ ZoomableMap.initialScale c = (9 # 10)%Q)
  /\ (isMobile || isTablet = false ->
        ZoomableMap.disabled (ZoomableMap.wheel c) = false
        /\ ZoomableMap.disabled (ZoomableMap.pinch c) = false
        /\ ZoomableMap.disabled (ZoomableMap.pan c) = false
        /\ ZoomableMap.minScale c = ZoomableMap.p_minScale props
        /\ ZoomableMap.maxScale c = ZoomableMap.p_maxScale props
        /\ ZoomableMap.initialScale c = ZoomableMap.p_initialScale props)
  /\ (forall props',
         let c' := ZoomableMap.transformConfig isMobile isTablet props' in
         ZoomableMap.wheel c' = ZoomableMap.wheel c
         /\ ZoomableMap.pinch c' = ZoomableMap.pinch c
         /\ ZoomableMap.pan c' = ZoomableMap.pan c).
Proof.
  simpl. split; [| split].
  - intros H. rewrite H. repeat split.
  - intros H. rewrite H. repeat split.
  - intros props'. repeat split.
Qed.

Lemma transformConfig_policy_witness :
  (ZoomableMap.disabled (ZoomableMap.wheel touchConfig) = true
   /\ ZoomableMap.disabled (ZoomableMap.pinch touchConfig) = false
   /\ ZoomableMap.disabled (ZoomableMap.pan touchConfig) = false
   /\ ZoomableMap.minScale touchConfig = (8 # 10)%Q
   /\ ZoomableMap.maxScale touchConfig = 4%Q
   /\ ZoomableMap.initialScale touchConfig = (9 # 10)%Q)
  /\ (ZoomableMap.disabled (ZoomableMap.wheel pointerConfig) = false
      /\ ZoomableMap.disabled (ZoomableMap.pinch pointerConfig) = false
      /\ ZoomableMap.disabled (ZoomableMap.pan pointerConfig) = false
      /\ ZoomableMap.minScale pointerConfig = (5 # 10)%Q
      /\ ZoomableMap.maxScale pointerConfig = 3%Q
      /\ ZoomableMap.initialScale pointerConfig = 1%Q).
Proof.
  split.
  - apply (proj1 (transformConfig_policy true false ZoomableMap.defaultZoomProps)).
    reflexivity.
  - apply (proj1 (proj2 (transformConfig_policy false false
                           ZoomableMap.defaultZoomProps))).
    reflexivity.
Defined.

(** C8 as stated fails on the pointer-only tier: pinch and pan are not
    disabled there, and the bounds of the configuration follow the caller's
    props, not the tier. *)
Lemma transformConfig_policy_counterexample :
  ~ (ZoomableMap.disabled (ZoomableMap.wheel pointerConfig) = false
     /\ ZoomableMap.disabled (ZoomableMap.pinch pointerConfig) = true
     /\ ZoomableMap.disabled (ZoomableMap.pan pointerConfig) = true)
  /\ ZoomableMap.transformConfig false false ZoomableMap.defaultZoomProps <>
     ZoomableMap.transformConfig false false raisedZoomProps.
Proof.
  split.
  - intros [_ [H _]]. discriminate H.
  - intros H. discriminate H.
Qed.

(** On the pointer-only tier the map is rendered bare: no [TransformWrapper]
    receives the configuration. *)
Lemma pointer_tier_has_no_wrapper (props : ZoomableMap.ZoomProps) :
  ZoomableMap.usesTransformWrapper false false props = false.
Proof. reflexivity. Qed.

(** Before the first measurement every icon sits at the container origin. *)
Lemma layout_before_measurement (icon : MapLayout.MapIcon) (scale : Q) (z : Z) :
  let l := MapLayout.MapIconComponent icon MapLayout.initialImageLayout scale z in
  (MapLayout.pixelX l == 0)%Q /\ (MapLayout.pixelY l == 0)%Q.
Proof.
  simpl. split; ring.
Qed.

(** ** Further properties of the viewer *)

(** Every handler makes no call, or closes the viewer, or reports the index
    of a dot, or makes the calls of one [changeIndexBy], possibly after
    [preventDefault]. *)
Lemma dispatch_cases (p : GalleryViewerProps) (e : Event) :
  dispatch p e = []
  \/ dispatch p e = [CallPreventDefault]
  \/ dispatch p e = [CallPreventDefault; CallOnClose]
  \/ (onIndexChange p = true /\ exists idx, dispatch p e = [CallOnIndexChange idx])
  \/ (exists delta, changeIndexBy p delta <> [] /\
        (dispatch p e = changeIndexBy p delta
         \/ dispatch p e = CallPreventDefault :: changeIndexBy p delta)).
Proof.
  assert (S : forall delta pre,
             (pre = [] \/ pre = [CallPreventDefault]) ->
             forall calls, calls = pre ++ changeIndexBy p delta ->
             calls = [] \/ calls = [CallPreventDefault]
             \/ calls = [CallPreventDefault; CallOnClose]
             \/ (onIndexChange p = true /\ exists idx, calls = [CallOnIndexChange idx])
             \/ (exists delta, changeIndexBy p delta <> [] /\
                   (calls = changeIndexBy p delta
                    \/ calls = CallPreventDefault :: changeIndexBy p delta))).
  { intros delta pre Hpre calls ->.
    destruct (changeIndexBy p delta) eqn:E.
    - rewrite app_nil_r. destruct Hpre as [-> | ->]; auto.
    - do 4 right. exists delta. rewrite E. split; [discriminate|].
      destruct Hpre as [-> | ->]; auto. }
  destruct e as [deltaY | key | ref x | idx]; simpl.
  - unfold handleWheel.
    destruct (negb (isOpen p) || (images_length p <=? 1)); [auto|].
    eapply S with (pre := [CallPreventDefault]); [auto | reflexivity].
  - unfold keyHandler. destruct (negb (isOpen p)); [auto|].
    destruct (String.eqb key "ArrowLeft").
    { eapply S with (pre := [CallPreventDefault]); [auto | reflexivity]. }
    destruct (String.eqb key "ArrowRight").
    { eapply S with (pre := [CallPreventDefault]); [auto | reflexivity]. }
    destruct (String.eqb key "Escape"); auto.
  - unfold onTouchMove. destruct ref as [s|]; [|auto].
    destruct (Qgtb (Qabs (s - x)) 50); [|auto]. simpl.
    eapply S with (pre := []); [auto | reflexivity].
  - unfold clickDot.
    destruct (existsb (Z.eqb idx) (dotIndices p)); [|auto].
    unfold IndicatorDot_onClick.
    destruct (onIndexChange p) eqn:Ho.
    { right. right. right. left. split; [reflexivity|]. exists idx. reflexivity. }
    destruct (negb (idx =? currentIndex p)); [|auto].
    eapply S with (pre := []); [auto | reflexivity].
Qed.

(** X1.  The keyboard closes the viewer on Escape and on nothing else: for
    every key, [onClose] is invoked if and only if the viewer is open and
    the key is Escape, and then exactly once and with no navigation call. *)
Theorem keyHandler_closes_on_escape_only (p : GalleryViewerProps) (key : string) :
  (In CallOnClose (keyHandler p key) <-> isOpen p = true /\ key = "Escape"%string)
  /\ (isOpen p = true -> keyHandler p "Escape" = [CallPreventDefault; CallOnClose]
      /\ fold_left notify (keyHandler p "Escape") p = p).
Proof.
  assert (N : forall delta, ~ In CallOnClose (CallPreventDefault :: changeIndexBy p delta)).
  { intros delta [H | H]; [discriminate|].
    destruct (changeIndexBy_cases p delta) as [E | [[_ [_ E]] | [[_ [_ [_ E]]] | [_ [_ [_ E]]]]]];
      rewrite E in H; simpl in H; intuition discriminate. }
  split.
  - unfold keyHandler. destruct (isOpen p); simpl.
    2:{ split; [contradiction | intros [H _]; discriminate]. }
    destruct (String.eqb_spec key "ArrowLeft") as [-> | _].
    { split; [intros H; elim (N _ H) | intros [_ H]; discriminate]. }
    destruct (String.eqb_spec key "ArrowRight") as [-> | _].
    { split; [intros H; elim (N _ H) | intros [_ H]; discriminate]. }
    destruct (String.eqb_spec key "Escape") as [-> | Hne].
    { split; [auto | intros _; simpl; auto]. }
    split; [contradiction | intros [_ H]; contradiction].
  - intros Ho. unfold keyHandler. rewrite Ho. simpl. split; reflexivity.
Qed.

Lemma keyHandler_closes_on_escape_only_witness :
  keyHandler three "Escape" = [CallPreventDefault; CallOnClose]
  /\ fold_left notify (keyHandler three "Escape") three = three.
Proof.
  apply (proj2 (keyHandler_closes_on_escape_only three "Escape")). reflexivity.
Defined.

(** X2.  Whatever the event and the props, its handler invokes at most one
    navigation callback, and a step by itself invokes nothing else. *)
Theorem dispatch_at_most_one_navigation (p : GalleryViewerProps) :
  (forall e, (List.length (filter isNavigation (dispatch p e)) <= 1)%nat)
  /\ (forall delta, (List.length (changeIndexBy p delta) <= 1)%nat
                    /\ Forall (fun c => isNavigation c = true) (changeIndexBy p delta)).
Proof.
  assert (C : forall delta, (List.length (changeIndexBy p delta) <= 1)%nat
                            /\ Forall (fun c => isNavigation c = true) (changeIndexBy p delta)).
  { intros delta.
    destruct (changeIndexBy_cases p delta) as [E | [[_ [_ E]] | [[_ [_ [_ E]]] | [_ [_ [_ E]]]]]];
      rewrite E; simpl; split; auto. }
  split; [|exact C].
  intros e.
  destruct (dispatch_cases p e) as [E | [E | [E | [[_ [idx E]] | [delta [_ [E | E]]]]]]];
    rewrite E; simpl; auto.
  - destruct (C delta) as [L F]. rewrite forallb_filter_id; [exact L|].
    apply forallb_forall. apply Forall_forall. exact F.
  - destruct (C delta) as [L F]. rewrite forallb_filter_id; [exact L|].
    apply forallb_forall. apply Forall_forall. exact F.
Qed.

(** X3.  The direct channel takes precedence: with [onIndexChange] supplied
    no handler ever invokes [onPrevious] or [onNext], whether or not they
    are supplied too; without it no handler ever reports an index. *)
Theorem dispatch_channel_precedence (p : GalleryViewerProps) (e : Event) :
  (onIndexChange p = true ->
     ~ In CallOnPrevious (dispatch p e) /\ ~ In CallOnNext (dispatch p e))
  /\ (onIndexChange p = false ->
        forall index, ~ In (CallOnIndexChange index) (dispatch p e)).
Proof.
  assert (C : forall delta c, In c (changeIndexBy p delta) ->
              (onIndexChange p = true /\ exists i, c = CallOnIndexChange i)
              \/ (onIndexChange p = false /\ (c = CallOnPrevious \/ c = CallOnNext))).
  { intros delta c H.
    destruct (changeIndexBy_cases p delta) as [E | [[Ho [_ E]] | [[Ho [_ [_ E]]] | [Ho [_ [_ E]]]]]];
      rewrite E in H; simpl in H; [contradiction | ..];
      destruct H as [<- | []]; eauto. }
  assert (D : forall c, In c (dispatch p e) ->
              c = CallPreventDefault \/ c = CallOnClose
              \/ (onIndexChange p = true /\ exists i, c = CallOnIndexChange i)
              \/ (onIndexChange p = false /\ (c = CallOnPrevious \/ c = CallOnNext))).
  { intros c H.
    destruct (dispatch_cases p e) as [E | [E | [E | [[Ho [idx E]] | [delta [_ [E | E]]]]]]];
      rewrite E in H.
    - contradiction.
    - destruct H as [<- | []]. auto.
    - destruct H as [<- | [<- | []]]; auto.
    - destruct H as [<- | []]. right. right. left. split; [exact Ho|]. exists idx. reflexivity.
    - right. right. exact (C delta c H).
    - destruct H as [<- | H]; [auto|]. right. right. exact (C delta c H). }
  split.
  - intros Ho. split; intros H; apply D in H;
      destruct H as [H | [H | [[_ [i H]] | [Hf _]]]]; congruence.
  - intros Ho index H. apply D in H.
    destruct H as [H | [H | [[Ht _] | [_ [H | H]]]]]; congruence.
Qed.

Lemma dispatch_channel_precedence_witness :
  (~ In CallOnPrevious (dispatch single (Key "ArrowLeft"))
   /\ ~ In CallOnNext (dispatch single (Key "ArrowLeft")))
  /\ (forall index, ~ In (CallOnIndexChange index) (dispatch threeLegacy (DotClick 2))).
Proof.
  split.
  - apply (proj1 (dispatch_channel_precedence single (Key "ArrowLeft"))). reflexivity.
  - apply (proj2 (dispatch_channel_precedence threeLegacy (DotClick 2))). reflexivity.
Defined.

(** X4.  With [onIndexChange] supplied and the index in range, a forward
    step reports the next index and wraps from the last to 0, and a backward
    step reports the previous index and wraps from 0 to the last. *)
Theorem changeIndexBy_wraps (p : GalleryViewerProps) :
  onIndexChange p = true ->
  0 <= currentIndex p < images_length p ->
  changeIndexBy p 1 =
    [CallOnIndexChange (if currentIndex p =? images_length p - 1 then 0
                        else currentIndex p + 1)]
  /\ changeIndexBy p (-1) =
       [CallOnIndexChange (if currentIndex p =? 0 then images_length p - 1
                           else currentIndex p - 1)].
Proof.
  intros Ho Hc. unfold changeIndexBy. rewrite Ho.
  replace (images_length p =? 0) with false by (symmetry; apply Z.eqb_neq; lia).
  rewrite !nextIndex_mod by lia. split; do 2 f_equal.
  - destruct (Z.eqb_spec (currentIndex p) (images_length p - 1)) as [E | E].
    + replace (currentIndex p + 1) with (images_length p) by lia.
      apply Z.mod_same. lia.
    + apply Z.mod_small. lia.
  - destruct (Z.eqb_spec (currentIndex p) 0) as [E | E].
    + rewrite E. replace (0 + -1) with (images_length p - 1 + (-1) * images_length p) by lia.
      rewrite Z.mod_add by lia. apply Z.mod_small. lia.
    + replace (currentIndex p + -1) with (currentIndex p - 1) by lia.
      apply Z.mod_small. lia.
Qed.

Lemma changeIndexBy_wraps_witness :
  changeIndexBy (withIndex three 2) 1 = [CallOnIndexChange 0]
  /\ changeIndexBy (withIndex three 2) (-1) = [CallOnIndexChange 1].
Proof.
  apply (changeIndexBy_wraps (withIndex three 2)).
  - reflexivity.
  - vm_compute. split; [discriminate | reflexivity].
Defined.

Lemma fold_step_sum (deltas : list Z) :
  forall p : GalleryViewerProps,
    1 <= images_length p ->
    0 <= currentIndex p < images_length p ->
    onIndexChange p = true ->
    Forall (fun d => - images_length p <= d) deltas ->
    currentIndex (fold_left step deltas p) =
      (currentIndex p + fold_right Z.add 0 deltas) mod images_length p
    /\ images (fold_left step deltas p) = images p.
Proof.
  induction deltas as [| d ds IH]; intros p Hn Hc Ho Hd; simpl.
  - rewrite Z.add_0_r, Z.mod_small by lia. split; reflexivity.
  - inversion Hd as [| ? ? Hd1 Hd2]; subst.
    pose proof (step_in_range p d Hn Hc Hd1) as Hr.
    pose proof (images_length_step p d) as Hl.
    destruct (IH (step p d)) as [IH1 IH2];
      rewrite ?Hl, ?onIndexChange_step; try assumption.
    rewrite IH1, IH2, Hl.
    rewrite step_direct by (assumption || lia). simpl.
    rewrite nextIndex_mod by lia.
    rewrite Z.add_mod_idemp_l by lia.
    split; [f_equal; lia | reflexivity].
Qed.

Lemma sum_repeat (d : Z) (k : nat) :
  fold_right Z.add 0 (repeat d k) = d * Z.of_nat k.
Proof.
  induction k as [| k IH]; [simpl; lia|].
  cbn [repeat fold_right]. rewrite IH. lia.
Qed.

(** X5.  With [onIndexChange] supplied, the index in range, twice the
    number of items below [MAX_SAFE_INTEGER] and every delta between
    [-itemCount] and [MAX_SAFE_INTEGER - 2 * itemCount] (so that every sum of
    every step is a sum of safe integers), the index after a sequence of
    steps is the start plus the sum of the deltas, modulo the number of
    items; so as many forward steps, or as many backward steps, as there are
    items lead back to the start. *)
Theorem steps_add_up (p : GalleryViewerProps) :
  1 <= images_length p ->
  2 * images_length p < MAX_SAFE_INTEGER ->
  0 <= currentIndex p < images_length p ->
  onIndexChange p = true ->
  (forall deltas,
      Forall (fun d => - images_length p <= d
                       <= MAX_SAFE_INTEGER - 2 * images_length p) deltas ->
      currentIndex (fold_left step deltas p) =
        (currentIndex p + fold_right Z.add 0 deltas) mod images_length p
      /\ Forall (fun i => 0 <= i < images_length p) (trajectory p deltas))
  /\ currentIndex (fold_left step (repeat 1 (List.length (images p))) p) =
       currentIndex p
  /\ currentIndex (fold_left step (repeat (-1) (List.length (images p))) p) =
       currentIndex p.
Proof.
  intros Hn _ Hc Ho.
  assert (R : forall d, - images_length p <= d ->
              currentIndex (fold_left step (repeat d (List.length (images p))) p) =
                currentIndex p).
  { intros d Hd.
    assert (F : Forall (fun x => - images_length p <= x)
                  (repeat d (List.length (images p)))).
    { apply Forall_forall. intros x Hx. apply repeat_spec in Hx. subst. exact Hd. }
    rewrite (proj1 (fold_step_sum _ p Hn Hc Ho F)).
    rewrite sum_repeat. fold (images_length p).
    rewrite Z.mod_add by lia. apply Z.mod_small. exact Hc. }
  split; [| split].
  - intros deltas Hd.
    assert (F : Forall (fun d => - images_length p <= d) deltas).
    { eapply Forall_impl; [|exact Hd]. intros d H. apply H. }
    split; [apply fold_step_sum; assumption|].
    clear Hd Ho R. revert p Hn Hc F.
    induction deltas as [| d ds IH]; intros p Hn Hc F; cbn [trajectory].
    + constructor.
    + inversion F as [| ? ? F1 F2]; subst.
      pose proof (step_in_range p d Hn Hc F1) as Hs.
      constructor; [exact Hs|].
      rewrite <- (images_length_step p d).
      apply IH; rewrite ?images_length_step; assumption.
  - apply R. lia.
  - apply R. lia.
Qed.

Lemma steps_add_up_witness :
  currentIndex (fold_left step [1; 1; -1; 1; 1] three) = 0
  /\ currentIndex (fold_left step (repeat 1 3) three) = 0.
Proof.
  assert (H := steps_add_up three ltac:(vm_compute; discriminate)
                 ltac:(vm_compute; reflexivity)
                 ltac:(vm_compute; split; [discriminate | reflexivity]) eq_refl).
  split.
  - apply (proj1 H [1; 1; -1; 1; 1]).
    repeat constructor; vm_compute; discriminate.
  - exact (proj1 (proj2 H)).
Defined.

(** X6.  With [onIndexChange] supplied, at least one item, and an index
    and a delta, in range or not, for which the sums of the step are sums of
    safe integers, the reported index [i] is congruent to
    [currentIndex + delta] and lies strictly between [-itemCount] and
    [itemCount]; it is non-negative, hence a valid index, exactly when
    [currentIndex + delta + itemCount >= 0] or [itemCount] divides
    [currentIndex + delta]. *)
Theorem changeIndexBy_reported_index (p : GalleryViewerProps) (delta : Z) :
  onIndexChange p = true ->
  1 <= images_length p ->
  exactSums (images_length p) (currentIndex p) delta ->
  exists i,
    changeIndexBy p delta = [CallOnIndexChange i]
    /\ - images_length p < i < images_length p
    /\ i mod images_length p = (currentIndex p + delta) mod images_length p
    /\ (0 <= i <->
        0 <= currentIndex p + delta + images_length p
        \/ (currentIndex p + delta) mod images_length p = 0).
Proof.
  intros Ho Hn _.
  exists (nextIndex (images_length p) (currentIndex p) delta).
  split.
  { unfold changeIndexBy. rewrite Ho.
    replace (images_length p =? 0) with false by (symmetry; apply Z.eqb_neq; lia).
    reflexivity. }
  unfold nextIndex.
  set (n := images_length p) in *. set (a := currentIndex p + delta).
  replace (currentIndex p + delta + n) with (a + n) by reflexivity.
  clearbody a n.
  pose proof (Z.rem_bound_abs (a + n) n ltac:(lia)) as Hb.
  pose proof (Z.quot_rem' (a + n) n) as Hq.
  assert (Hm : Z.rem (a + n) n mod n = a mod n).
  { assert (E : Z.rem (a + n) n = a + (1 - (a + n) ÷ n) * n) by nia.
    rewrite E. apply Z.mod_add. lia. }
  split; [lia|]. split; [exact Hm|].
  split.
  - intros Hi. destruct (Z_le_gt_dec 0 (a + n)) as [L | G]; [left; exact L|].
    right. pose proof (Z.rem_bound_pos_neg (a + n) n ltac:(lia) ltac:(lia)) as Hneg.
    assert (Z.rem (a + n) n = 0) as E by lia.
    rewrite <- Hm, E. apply Z.mod_0_l. lia.
  - intros [L | E].
    + apply Z.rem_nonneg; lia.
    + rewrite <- Hm in E.
      destruct (Z_le_gt_dec 0 (Z.rem (a + n) n)) as [L | G]; [exact L|].
      exfalso.
      replace (Z.rem (a + n) n) with (Z.rem (a + n) n + n + (-1) * n) in E by lia.
      rewrite Z.mod_add in E by lia. rewrite Z.mod_small in E by lia. lia.
Qed.

Lemma changeIndexBy_reported_index_witness :
  exists i,
    changeIndexBy three (-4) = [CallOnIndexChange i]
    /\ - images_length three < i < images_length three
    /\ i mod images_length three = (currentIndex three + -4) mod images_length three
    /\ (0 <= i <->
        0 <= currentIndex three + -4 + images_length three
        \/ (currentIndex three + -4) mod images_length three = 0).
Proof.
  apply (changeIndexBy_reported_index three (-4)).
  - reflexivity.
  - vm_compute. discriminate.
  - vm_compute. repeat split; discriminate.
Defined.

Lemma active_dots_from (c : Z) (len : nat) :
  forall a : nat,
    filter snd (map (fun k => (Z.of_nat k, Z.of_nat k =? c)) (seq a len)) =
    if (Z.of_nat a <=? c) && (c <? Z.of_nat (a + len)) then [(c, true)] else [].
Proof.
  induction len as [| len IH]; intros a.
  - cbn [seq map filter].
    destruct (Z.leb_spec (Z.of_nat a) c); cbn [andb]; [|reflexivity].
    destruct (Z.ltb_spec c (Z.of_nat (a + 0))); [lia | reflexivity].
  - cbn [seq map filter snd]. rewrite IH.
    destruct (Z.eqb_spec (Z.of_nat a) c) as [E | E].
    + subst c.
      destruct (Z.leb_spec (Z.of_nat (S a)) (Z.of_nat a)); [lia|].
      destruct (Z.leb_spec (Z.of_nat a) (Z.of_nat a)); [|lia].
      destruct (Z.ltb_spec (Z.of_nat a) (Z.of_nat (a + S len))); [|lia].
      cbn [andb]. reflexivity.
    + destruct (Z.leb_spec (Z.of_nat (S a)) c), (Z.leb_spec (Z.of_nat a) c);
        try lia; cbn [andb]; [|reflexivity].
      replace (S a + len)%nat with (a + S len)%nat by lia. reflexivity.
Qed.

(** X7.  When the indicator bar is drawn (viewer open, more than one item)
    it has one dot per item, in index order; exactly one dot is active when
    [currentIndex] is in range, the one of [currentIndex], and none is
    active when it is out of range. *)
Theorem render_active_dot (p : GalleryViewerProps) (v : View) :
  render p = Some v -> 1 < images_length p ->
  map fst (indicatorDots v) = map Z.of_nat (seq 0 (List.length (images p)))
  /\ (0 <= currentIndex p < images_length p ->
        filter snd (indicatorDots v) = [(currentIndex p, true)])
  /\ (~ 0 <= currentIndex p < images_length p ->
        filter snd (indicatorDots v) = []).
Proof.
  unfold render. intros Hr Hn.
  destruct (negb (isOpen p) || (images_length p =? 0)); [discriminate|].
  injection Hr as <-. cbn [indicatorDots].
  replace (1 <? images_length p) with true by (symmetry; apply Z.ltb_lt; lia).
  split; [apply dots_indices|].
  unfold dots. rewrite (active_dots_from (currentIndex p) _ 0).
  unfold images_length. split; intros Hc.
  - destruct (Z.leb_spec (Z.of_nat 0) (currentIndex p)); [|lia].
    destruct (Z.ltb_spec (currentIndex p) (Z.of_nat (0 + List.length (images p))));
      [reflexivity | lia].
  - destruct (Z.leb_spec (Z.of_nat 0) (currentIndex p)); [|reflexivity].
    destruct (Z.ltb_spec (currentIndex p) (Z.of_nat (0 + List.length (images p))));
      [|reflexivity].
    exfalso. apply Hc. lia.
Qed.

Lemma render_active_dot_witness :
  exists v, render three = Some v
            /\ filter snd (indicatorDots v) = [(0, true)]
            /\ map fst (indicatorDots v) = [0; 1; 2].
Proof.
  eexists. split; [reflexivity|].
  destruct (render_active_dot three _ eq_refl eq_refl) as [D [A _]].
  split; [apply A; vm_compute; split; [discriminate | reflexivity] | exact D].
Defined.



(** X9.  A closed viewer renders nothing and its key, wheel and dot handlers
    make no call: the document-level key listener is deaf while the viewer
    is closed. *)
Theorem closed_viewer_inert (p : GalleryViewerProps) :
  isOpen p = false ->
  render p = None
  /\ (forall key, dispatch p (Key key) = [])
  /\ (forall deltaY, dispatch p (Wheel deltaY) = [])
  /\ (forall idx, dispatch p (DotClick idx) = []).
Proof.
  intros Hc.
  assert (Hr : render p = None) by (unfold render; rewrite Hc; reflexivity).
  split; [exact Hr|]. simpl. split; [| split].
  - intros key. unfold keyHandler. rewrite Hc. reflexivity.
  - intros deltaY. unfold handleWheel. rewrite Hc. reflexivity.
  - intros idx. unfold clickDot, dotIndices. rewrite Hr. reflexivity.
Qed.

Lemma closed_viewer_inert_witness :
  render closed = None /\ dispatch closed (Key "Escape") = [].
Proof.
  pose proof (closed_viewer_inert closed eq_refl) as H.
  split; [exact (proj1 H) | exact (proj1 (proj2 H) "Escape"%string)].
Defined.

(** X10.  Behind the legacy callbacks (no [onIndexChange], both [onPrevious]
    and [onNext] supplied, viewer open with more than one item): scrolling
    down, the right arrow and a swipe of the finger more than 50 to the left
    each call [onNext] once; scrolling up or by zero, the left arrow and a
    swipe more than 50 to the right each call [onPrevious] once. *)
Theorem legacy_directions (p : GalleryViewerProps) :
  onIndexChange p = false -> onPrevious p = true -> onNext p = true ->
  isOpen p = true -> 1 < images_length p ->
  (forall deltaY, (0 < deltaY)%Q ->
      handleWheel p deltaY = [CallPreventDefault; CallOnNext])
  /\ (forall deltaY, (deltaY <= 0)%Q ->
        handleWheel p deltaY = [CallPreventDefault; CallOnPrevious])
  /\ keyHandler p "ArrowRight" = [CallPreventDefault; CallOnNext]
  /\ keyHandler p "ArrowLeft" = [CallPreventDefault; CallOnPrevious]
  /\ (forall x0 x, (x < x0 - 50)%Q ->
        onTouchMove (Some x0) p x = (None, [CallOnNext]))
  /\ (forall x0 x, (x0 + 50 < x)%Q ->
        onTouchMove (Some x0) p x = (None, [CallOnPrevious])).
Proof.
  intros Ho Hp Hx Hopen Hn.
  assert (F : changeIndexBy p 1 = [CallOnNext]).
  { unfold changeIndexBy. rewrite Ho, Hp, Hx.
    replace (images_length p =? 0) with false by (symmetry; apply Z.eqb_neq; lia).
    reflexivity. }
  assert (B : changeIndexBy p (-1) = [CallOnPrevious]).
  { unfold changeIndexBy. rewrite Ho, Hp.
    replace (images_length p =? 0) with false by (symmetry; apply Z.eqb_neq; lia).
    reflexivity. }
  split; [| split; [| split; [| split; [| split]]]].
  - intros deltaY Hd. rewrite handleWheel_active by assumption.
    rewrite (proj2 (Qgtb_true _ _) Hd), F. reflexivity.
  - intros deltaY Hd. rewrite handleWheel_active by assumption.
    rewrite (proj2 (Qgtb_false _ _) Hd), B. reflexivity.
  - unfold keyHandler. rewrite Hopen, F. reflexivity.
  - unfold keyHandler. rewrite Hopen, B. reflexivity.
  - intros x0 x H. unfold onTouchMove.
    assert (D : (50 < x0 - x)%Q) by lra.
    assert (A : (50 < Qabs (x0 - x))%Q).
    { rewrite Qabs_pos; [exact D | lra]. }
    rewrite (proj2 (Qgtb_true _ _) A).
    rewrite (proj2 (Qgtb_true (x0 - x) 0) ltac:(lra)), F. reflexivity.
  - intros x0 x H. unfold onTouchMove.
    assert (D : (x0 - x < - (50))%Q) by lra.
    assert (A : (50 < Qabs (x0 - x))%Q).
    { rewrite Qabs_neg; lra. }
    rewrite (proj2 (Qgtb_true _ _) A).
    rewrite (proj2 (Qgtb_false (x0 - x) 0) ltac:(lra)), B. reflexivity.
Qed.

Lemma legacy_directions_witness :
  handleWheel threeLegacy 0 = [CallPreventDefault; CallOnPrevious]
  /\ onTouchMove (Some 200%Q) threeLegacy 100 = (None, [CallOnNext]).
Proof.
  pose proof (legacy_directions threeLegacy eq_refl eq_refl eq_refl eq_refl eq_refl)
    as H.
  split.
  - apply (proj1 (proj2 H)). vm_compute. discriminate.
  - apply (proj1 (proj2 (proj2 (proj2 (proj2 H))))). vm_compute. reflexivity.
Defined.

(** X11.  An open viewer with items always renders; the picture shown is
    the item at [currentIndex] when that is in range, and no picture at all
    (rather than a failure) when it is not. *)
Theorem render_shown_image (p : GalleryViewerProps) :
  isOpen p = true -> 1 <= images_length p ->
  exists v,
    render p = Some v
    /\ (0 <= currentIndex p < images_length p ->
          exists img, shown v = Some img
                      /\ nth_error (images p) (Z.to_nat (currentIndex p)) = Some img)
    /\ (~ 0 <= currentIndex p < images_length p -> shown v = None).
Proof.
  intros Ho Hn. unfold render. rewrite Ho.
  replace (images_length p =? 0) with false by (symmetry; apply Z.eqb_neq; lia).
  simpl. eexists. split; [reflexivity|]. cbn [shown]. unfold image_at.
  unfold images_length in *. split.
  - intros Hc.
    replace (currentIndex p <? 0) with false by (symmetry; apply Z.ltb_ge; lia).
    destruct (nth_error (images p) (Z.to_nat (currentIndex p))) as [img|] eqn:E.
    + exists img. split; reflexivity.
    + apply nth_error_None in E. lia.
  - intros Hc. destruct (Z.ltb_spec (currentIndex p) 0); [reflexivity|].
    apply nth_error_None. lia.
Qed.

Lemma render_shown_image_witness :
  exists v, render (withIndex three 7) = Some v /\ shown v = None.
Proof.
  destruct (render_shown_image (withIndex three 7) eq_refl
              ltac:(vm_compute; discriminate)) as [v [R [_ S]]].
  exists v. split; [exact R|]. apply S.
  vm_compute. intros [_ H]. discriminate H.
Defined.

(** ** Properties of the map components *)

(** X12.  The measurement is relative to the container: moving container
    and image together (a page scroll) changes nothing in the measured
    layout; each measurement with an image overwrites the previous one; and
    while the image is not mounted the previous layout is kept and only the
    container width follows. *)
Theorem update_measurement (st : ZoomableMapContainer.Measured)
    (cRect iRect : ZoomableMapContainer.DOMRect) :
  (forall dx dy,
      let m := ZoomableMapContainer.update st cRect (Some iRect) in
      let m' := ZoomableMapContainer.update st
                  (ZoomableMapContainer.shifted dx dy cRect)
                  (Some (ZoomableMapContainer.shifted dx dy iRect)) in
      ZoomableMapContainer.containerWidth m' = ZoomableMapContainer.containerWidth m
      /\ MapLayout.width (ZoomableMapContainer.imageLayout m') =
         MapLayout.width (ZoomableMapContainer.imageLayout m)
      /\ MapLayout.height (ZoomableMapContainer.imageLayout m') =
         MapLayout.height (ZoomableMapContainer.imageLayout m)
      /\ (MapLayout.offsetLeft (ZoomableMapContainer.imageLayout m') ==
          MapLayout.offsetLeft (ZoomableMapContainer.imageLayout m))%Q
      /\ (MapLayout.offsetTop (ZoomableMapContainer.imageLayout m') ==
          MapLayout.offsetTop (ZoomableMapContainer.imageLayout m))%Q)
  /\ (forall c0 i0,
         ZoomableMapContainer.update (ZoomableMapContainer.update st c0 i0)
           cRect (Some iRect) =
         ZoomableMapContainer.update st cRect (Some iRect))
  /\ ZoomableMapContainer.imageLayout (ZoomableMapContainer.update st cRect None) =
     ZoomableMapContainer.imageLayout st
  /\ ZoomableMapContainer.containerWidth (ZoomableMapContainer.update st cRect None) =
     ZoomableMapContainer.width cRect.
Proof.
  split; [| split; [| split]]; try reflexivity.
  intros dx dy. simpl. repeat split; ring.
Qed.

Lemma nth_error_mapi_from_seq {A B} (f : nat -> A -> B) (l : list A) :
  forall (a n : nat),
    nth_error (map (fun ia => f (fst ia) (snd ia)) (combine (seq a (List.length l)) l)) n =
    option_map (f (a + n)%nat) (nth_error l n).
Proof.
  induction l as [| x l IH]; intros a n; destruct n as [| n]; simpl;
    try reflexivity.
  - rewrite Nat.add_0_r. reflexivity.
  - rewrite IH. replace (S a + n)%nat with (a + S n)%nat by lia. reflexivity.
Qed.

Lemma nth_error_mapi {A B} (f : nat -> A -> B) (l : list A) (n : nat) :
  nth_error (MapIcons.mapi f l) n = option_map (f n) (nth_error l n).
Proof.
  unfold MapIcons.mapi. apply (nth_error_mapi_from_seq f l 0 n).
Qed.

(** X13.  [ZoomableOverviewMap] draws one [LocationIcon] per map icon, in
    order, at the icon's own percentages; its size is the icon's [iconSize]
    when that is set and not 0, and 30 when it is unset or 0, so that no
    icon is ever drawn with size 0. *)
Theorem locationIcons_size (isMobile isTablet : bool)
    (mapIcons : list MapIcons.MapIcon) (n : nat) (icon : MapIcons.MapIcon) :
  nth_error mapIcons n = Some icon ->
  exists props,
    nth_error (MapIcons.locationIcons isMobile isTablet mapIcons) n = Some props
    /\ MapIcons.x props = MapIcons.m_x icon
    /\ MapIcons.y props = MapIcons.m_y icon
    /\ ~ (MapIcons.size props == 0)%Q
    /\ (forall s, MapIcons.m_iconSize icon = Some s -> ~ (s == 0)%Q ->
                  MapIcons.size props = s)
    /\ (MapIcons.m_iconSize icon = None
        \/ (exists s, MapIcons.m_iconSize icon = Some s /\ (s == 0)%Q) ->
        MapIcons.size props = 30%Q).
Proof.
  intros H. unfold MapIcons.locationIcons. rewrite nth_error_mapi, H.
  eexists. split; [reflexivity|]. cbn [MapIcons.x MapIcons.y MapIcons.size].
  split; [reflexivity|]. split; [reflexivity|].
  unfold MapIcons.iconSizeOrDefault. split; [| split].
  - destruct (MapIcons.m_iconSize icon) as [s|]; [|discriminate].
    destruct (Qeq_bool s 0) eqn:E; [discriminate|].
    apply Qeq_bool_neq. exact E.
  - intros s -> Hs. destruct (Qeq_bool s 0) eqn:E; [|reflexivity].
    apply Qeq_bool_eq in E. contradiction.
  - intros [-> | [s [-> Hs]]]; [reflexivity|].
    rewrite (Qeq_eq_bool _ _ Hs). reflexivity.
Qed.

Lemma locationIcons_size_witness :
  exists props,
    nth_error (MapIcons.locationIcons true false overviewIcons) 1 = Some props
    /\ MapIcons.size props = 30%Q
    /\ MapIcons.x props = 70%Q.
Proof.
  destruct (locationIcons_size true false overviewIcons 1 _ eq_refl)
    as [props [N [X [_ [_ [_ D]]]]]].
  exists props. split; [exact N|]. split; [|exact X].
  apply D. right. exists 0%Q. split; reflexivity.
Defined.

Lemma zIndex_mapi_from {A} (f : A -> Z -> ZoomableMapContainer.MapIconProps)
    (base : Z) (l : list A) :
  (forall a index, ZoomableMapContainer.zIndex (f a index) = base + index) ->
  forall index,
    map ZoomableMapContainer.zIndex (MapLayout.mapi_from f index l) =
    map (fun n => base + index + Z.of_nat n) (seq 0 (List.length l)).
Proof.
  intros Hf. induction l as [| a l IH]; intros index; [reflexivity|].
  cbn [MapLayout.mapi_from map List.length seq].
  rewrite Hf, IH, <- seq_shift, map_map.
  f_equal; [lia|]. apply map_ext. intros n. lia.
Qed.

Lemma icon_mapi_from (f : MapLayout.MapIcon -> Z -> ZoomableMapContainer.MapIconProps)
    (l : list MapLayout.MapIcon) :
  (forall a index, ZoomableMapContainer.icon (f a index) = a) ->
  forall index,
    map ZoomableMapContainer.icon (MapLayout.mapi_from f index l) = l.
Proof.
  intros Hf. induction l as [| a l IH]; intros index; [reflexivity|].
  cbn [MapLayout.mapi_from map]. rewrite Hf, IH. reflexivity.
Qed.

Lemma insertIndexed_perm {V} (n : N) (v : V) (l : list (N * V)) :
  Permutation (JSObject.insertIndexed n v l) ((n, v) :: l).
Proof.
  induction l as [| [m w] rest IH]; cbn [JSObject.insertIndexed]; [reflexivity|].
  destruct (n <=? m)%N; [reflexivity|].
  apply perm_trans with ((m, w) :: (n, v) :: rest);
    [apply perm_skip; exact IH | apply perm_swap].
Qed.

Lemma insertIndexed_sorted {V} (n : N) (v : V) (l : list (N * V)) :
  Sorted (fun a b => (fst a <= fst b)%N) l ->
  Sorted (fun a b => (fst a <= fst b)%N) (JSObject.insertIndexed n v l).
Proof.
  induction 1 as [| [m w] rest Hs IH Hd]; cbn [JSObject.insertIndexed].
  - repeat constructor.
  - destruct (N.leb_spec n m) as [L | G].
    + constructor; [constructor; assumption|]. constructor. exact L.
    + constructor; [exact IH|].
      destruct rest as [| [m' w'] rest']; cbn [JSObject.insertIndexed].
      * constructor. cbn [fst]. apply N.lt_le_incl. exact G.
      * destruct (n <=? m')%N; constructor; cbn [fst].
        -- apply N.lt_le_incl. exact G.
        -- inversion Hd; assumption.
Qed.

Lemma indexed_sorted {V} (o : list (string * V)) :
  Sorted (fun a b => (fst a <= fst b)%N) (JSObject.indexed o).
Proof.
  induction o as [| [k v] o IH]; cbn [JSObject.indexed fold_right]; [constructor|].
  cbn [fst snd]. destruct (JSObject.arrayIndex k); [|exact IH].
  apply insertIndexed_sorted. exact IH.
Qed.

Lemma values_perm {V} (o : list (string * V)) :
  Permutation (JSObject.values o) (map snd o).
Proof.
  unfold JSObject.values.
  induction o as [| [k v] o IH]; [reflexivity|].
  cbn [JSObject.indexed JSObject.named fold_right filter map fst snd].
  fold (JSObject.indexed o). fold (JSObject.named o).
  destruct (JSObject.arrayIndex k) as [n|].
  - apply perm_trans with (v :: map snd (JSObject.indexed o) ++ map snd (JSObject.named o)).
    + apply (Permutation_app_tail _
               (Permutation_map snd (insertIndexed_perm n v (JSObject.indexed o)))).
    + apply perm_skip. exact IH.
  - cbn [map snd]. apply perm_trans with
      (v :: map snd (JSObject.indexed o) ++ map snd (JSObject.named o)).
    + apply Permutation_sym, Permutation_middle.
    + apply perm_skip. exact IH.
Qed.

Lemma values_named_only {V} (o : list (string * V)) :
  (forall kv, In kv o -> JSObject.arrayIndex (fst kv) = None) ->
  JSObject.values o = map snd o.
Proof.
  unfold JSObject.values. induction o as [| [k v] o IH]; intros H; [reflexivity|].
  cbn [JSObject.indexed JSObject.named fold_right filter map fst snd].
  fold (JSObject.indexed o). fold (JSObject.named o).
  pose proof (H (k, v) (or_introl eq_refl)) as Hk. cbn [fst] in Hk. rewrite Hk.
  assert (E : JSObject.indexed o = []).
  { clear IH. induction o as [| [k' v'] o IH']; [reflexivity|].
    cbn [JSObject.indexed fold_right fst snd]. fold (JSObject.indexed o).
    pose proof (H (k', v') (or_intror (or_introl eq_refl))) as Hk'.
    cbn [fst] in Hk'. rewrite Hk'.
    apply IH'. intros kv [<- | Hin]; apply H; simpl; auto. }
  specialize (IH (fun kv Hin => H kv (or_intror Hin))).
  rewrite E in *. cbn [map app] in *. rewrite IH. reflexivity.
Qed.

(** X14.  For an object [config.icons] with pairwise distinct keys,
    [ZoomableMapContainer] throws on a touch tier with [enableZoom] set and
    otherwise renders one [MapIconComponent] for each icon of the object, all
    with the same image layout and scale and keyed by the icon's id.  The
    icons come in the order of [Object.values]: those whose key is an array
    index first, by ascending index, then the others in creation order, which
    is the creation order of the whole object when no key is an array index.
    The n-th one rendered gets z-index [10 + n], so the z-indices are
    pairwise distinct. *)
Theorem iconProps_stacking (icons : list (string * MapLayout.MapIcon))
    (imageLayout : MapLayout.ImageLayout) (scale : Q)
    (isMobile isTablet : bool) (zoom : ZoomableMap.ZoomProps) :
  NoDup (map fst icons) ->
  (containerIcons isMobile isTablet zoom icons imageLayout scale = None <->
   (isMobile || isTablet) && ZoomableMap.enableZoom zoom = true)
  /\ (forall props,
         containerIcons isMobile isTablet zoom icons imageLayout scale = Some props ->
         map ZoomableMapContainer.icon props =
           map snd (JSObject.indexed icons) ++ map snd (JSObject.named icons)
         /\ Sorted (fun a b => (fst a <= fst b)%N) (JSObject.indexed icons)
         /\ Permutation (map ZoomableMapContainer.icon props) (map snd icons)
         /\ ((forall kv, In kv icons -> JSObject.arrayIndex (fst kv) = None) ->
             map ZoomableMapContainer.icon props = map snd icons)
         /\ map ZoomableMapContainer.zIndex props =
            map (fun n => 10 + Z.of_nat n) (seq 0 (List.length icons))
         /\ NoDup (map ZoomableMapContainer.zIndex props)
         /\ Forall (fun q => ZoomableMapContainer.key q =
                               MapLayout.id (ZoomableMapContainer.icon q)
                             /\ ZoomableMapContainer.p_imageLayout q = imageLayout
                             /\ ZoomableMapContainer.p_scale q = scale) props).
Proof.
  intros _. split.
  - unfold containerIcons, mapFrame, ZoomableMap.usesTransformWrapper.
    destruct ((isMobile || isTablet) && ZoomableMap.enableZoom zoom); simpl;
      split; intros H; congruence.
  - intros props Hp.
    assert (E : props = ZoomableMapContainer.iconProps icons imageLayout scale).
    { unfold containerIcons in Hp.
      destruct (mapFrame Container isMobile isTablet zoom); congruence. }
    subst props. clear Hp. unfold ZoomableMapContainer.iconProps.
    assert (I : map ZoomableMapContainer.icon
                  (MapLayout.mapi_from
                     (fun icon index =>
                        {| ZoomableMapContainer.key := MapLayout.id icon;
                           ZoomableMapContainer.icon := icon;
                           ZoomableMapContainer.p_imageLayout := imageLayout;
                           ZoomableMapContainer.p_scale := scale;
                           ZoomableMapContainer.zIndex := 10 + index |})
                     0 (JSObject.values icons)) = JSObject.values icons).
    { apply icon_mapi_from. reflexivity. }
    assert (L : List.length (JSObject.values icons) = List.length icons).
    { rewrite (Permutation_length (values_perm icons)). apply length_map. }
    rewrite I.
    split; [reflexivity|].
    split; [apply indexed_sorted|].
    split; [apply values_perm|].
    split; [apply values_named_only|].
    rewrite (zIndex_mapi_from _ 10) by reflexivity. rewrite L.
    split; [apply map_ext; intros n; lia|].
    split.
    + apply Finite.Injective_map_NoDup; [|apply seq_NoDup].
      intros a b H. lia.
    + clear I L. generalize 0 at 1.
      induction (JSObject.values icons) as [| a l IH];
        intros index; cbn [MapLayout.mapi_from]; constructor;
        [repeat split | apply IH].
Qed.

Lemma iconProps_stacking_witness :
  exists props,
    containerIcons false false ZoomableMap.defaultZoomProps mixedIcons
      scenarioLayout 1 = Some props
    /\ map MapLayout.id (map ZoomableMapContainer.icon props) =
         [ "1"%string; "2"%string; "b"%string ]
    /\ map ZoomableMapContainer.zIndex props = [10; 11; 12].
Proof.
  assert (N : NoDup (map fst mixedIcons)).
  { repeat constructor; simpl; intuition discriminate. }
  eexists. split; [reflexivity|].
  destruct (proj2 (iconProps_stacking mixedIcons scenarioLayout 1 false false
                     ZoomableMap.defaultZoomProps N) _ eq_refl)
    as [O [_ [_ [_ [Z _]]]]].
  rewrite O, Z. split; reflexivity.
Defined.

Lemma to_uint_nonnil (n : nat) : Nat.to_uint n <> Decimal.Nil.
Proof.
  rewrite <- (DecimalNat.Unsigned.of_to n), DecimalNat.Unsigned.to_of.
  apply DecimalFacts.unorm_nonnil.
Qed.

Lemma decimal_inj (n m : nat) : MapIcons.decimal n = MapIcons.decimal m -> n = m.
Proof.
  unfold MapIcons.decimal. intros H.
  apply (f_equal NilZero.uint_of_string) in H.
  rewrite !NilZero.usu in H by apply to_uint_nonnil.
  injection H as H. apply DecimalNat.Unsigned.to_uint_inj. exact H.
Qed.

Lemma digits_no_dash (d : Decimal.uint) :
  forall a b, NilEmpty.string_of_uint d <> (a ++ String "-" b)%string.
Proof.
  induction d as [| d IH | d IH | d IH | d IH | d IH | d IH | d IH | d IH | d IH | d IH];
    intros a b H; destruct a as [| c a]; simpl in H;
    try discriminate; injection H as _ H; exact (IH _ _ H).
Qed.

Lemma decimal_no_dash (n : nat) (a b : string) :
  MapIcons.decimal n <> (a ++ String "-" b)%string.
Proof.
  unfold MapIcons.decimal, NilZero.string_of_uint.
  pose proof (to_uint_nonnil n) as Hn.
  destruct (Nat.to_uint n) eqn:E; try contradiction;
    rewrite <- E; apply digits_no_dash.
Qed.

Lemma iconKey_inj (t1 t2 : string) (n m : nat) :
  MapIcons.iconKey t1 n = MapIcons.iconKey t2 m -> n = m.
Proof.
  unfold MapIcons.iconKey. revert t2.
  induction t1 as [| c1 t1 IH]; intros [| c2 t2] H; simpl in H.
  - injection H as H. apply decimal_inj. exact H.
  - injection H as _ H. elim (decimal_no_dash n t2 (MapIcons.decimal m)). exact H.
  - injection H as _ H. elim (decimal_no_dash m t1 (MapIcons.decimal n)).
    symmetry. exact H.
  - injection H as _ H. exact (IH _ H).
Qed.

Lemma mapi_keys_NoDup {A} (titleOf : A -> string) (f : nat -> A -> MapIcons.IconProps)
    (l : list A) :
  (forall n a, MapIcons.key (f n a) = MapIcons.iconKey (titleOf a) n) ->
  NoDup (map MapIcons.key (MapIcons.mapi f l)).
Proof.
  intros Hf. apply NoDup_nth_error. intros i j Hi E.
  rewrite !nth_error_map, !nth_error_mapi in E.
  rewrite length_map in Hi.
  destruct (nth_error l i) as [a|] eqn:Ei.
  2:{ apply nth_error_None in Ei. unfold MapIcons.mapi in Hi.
      rewrite length_map, length_combine, length_seq, Nat.min_id in Hi. lia. }
  destruct (nth_error l j) as [b|]; [|discriminate].
  simpl in E. injection E as E. rewrite !Hf in E.
  exact (iconKey_inj _ _ _ _ E).
Qed.

(** X15.  The keys of the icons of [ZoomableOverviewMap] and of
    [ZoomableIslandMap] are pairwise distinct whatever the titles are, equal
    titles included: the index that ends the key tells them apart. *)
Theorem icon_keys_distinct (isMobile isTablet : bool) :
  (forall mapIcons,
      NoDup (map MapIcons.key (MapIcons.locationIcons isMobile isTablet mapIcons)))
  /\ (forall checkInIcons,
         NoDup (map MapIcons.key
                  (MapIcons.iconContainers isMobile isTablet checkInIcons))).
Proof.
  split; intros l.
  - apply (mapi_keys_NoDup MapIcons.m_title). reflexivity.
  - apply (mapi_keys_NoDup MapIcons.c_title). reflexivity.
Qed.

(** X16.  Whatever the component, the tier and the props, a configuration
    reaches the zoom library only from [ZoomableOverviewMap] and
    [ZoomableIslandMap], only on a touch tier with [enableZoom] set, and it
    then has wheel zoom disabled and the bounds 0.8, 4 and 0.9 whatever the
    props say; [ZoomableMapContainer] throws in that case instead; in every
    other case the bare map is rendered.  So two callers that agree on
    [enableZoom] get the same outcome. *)
Theorem mapFrame_outcomes (c : Component) (isMobile isTablet : bool)
    (props : ZoomableMap.ZoomProps) :
  (forall config, mapFrame c isMobile isTablet props = Wrapped config ->
                  c <> Container
                  /\ isMobile || isTablet = true
                  /\ ZoomableMap.enableZoom props = true
                  /\ ZoomableMap.disabled (ZoomableMap.wheel config) = true
                  /\ ZoomableMap.disabled (ZoomableMap.pinch config) = false
                  /\ ZoomableMap.disabled (ZoomableMap.pan config) = false
                  /\ ZoomableMap.minScale config = (8 # 10)%Q
                  /\ ZoomableMap.maxScale config = 4%Q
                  /\ ZoomableMap.initialScale config = (9 # 10)%Q)
  /\ (mapFrame c isMobile isTablet props = Throws <->
      c = Container /\ isMobile || isTablet = true
      /\ ZoomableMap.enableZoom props = true)
  /\ (mapFrame c isMobile isTablet props = Bare <->
      isMobile || isTablet = false \/ ZoomableMap.enableZoom props = false)
  /\ (forall props',
         ZoomableMap.enableZoom props' = ZoomableMap.enableZoom props ->
         mapFrame c isMobile isTablet props' = mapFrame c isMobile isTablet props).
Proof.
  unfold mapFrame, ZoomableMap.usesTransformWrapper, ZoomableMap.transformConfig.
  split; [| split; [| split]].
  - intros config.
    destruct (isMobile || isTablet); simpl; [|discriminate].
    destruct (ZoomableMap.enableZoom props); [|discriminate].
    destruct c; simpl; try discriminate;
      intros H; injection H as <-; repeat split; discriminate.
  - destruct (isMobile || isTablet), (ZoomableMap.enableZoom props), c; simpl;
      split; intros H; try discriminate; auto;
      destruct H as [H1 [H2 H3]]; discriminate.
  - destruct (isMobile || isTablet), (ZoomableMap.enableZoom props), c; simpl;
      split; intros H; try discriminate; auto;
      destruct H as [H | H]; discriminate.
  - intros props' ->. destruct (isMobile || isTablet); reflexivity.
Qed.

Lemma mapFrame_outcomes_witness :
  mapFrame Container true false ZoomableMap.defaultZoomProps = Throws
  /\ mapFrame Island false false ZoomableMap.defaultZoomProps = Bare
  /\ mapFrame Overview true false raisedZoomProps =
     mapFrame Overview true false ZoomableMap.defaultZoomProps.
Proof.
  split; [| split].
  - apply (proj1 (proj2 (mapFrame_outcomes Container true false
                           ZoomableMap.defaultZoomProps))).
    repeat split.
  - apply (proj1 (proj2 (proj2 (mapFrame_outcomes Island false false
                                  ZoomableMap.defaultZoomProps)))).
    left. reflexivity.
  - apply (proj2 (proj2 (proj2 (mapFrame_outcomes Overview true false
                                  ZoomableMap.defaultZoomProps)))).
    reflexivity.
Defined.
